(* ===== verification/_CoqProject ===== *)
-Q . S2P
Prelude.v
Board.v
Minimax.v
Game.v
Persistence.v
Service.v
Leaderboard.v
Users.v
Auth.v
Controllers.v
GameController.v
