(* ===== verification/Prelude.v ===== *)
(** * A verification development of the tic-tac-toe backend

    The program ([src/src]) is a Flask backend for tic-tac-toe between
    two players (PvP) or a player and the computer (PvC), with users,
    JWT authentication, persistence in SQL tables and a leaderboard.
    A request goes through a controller ([web/route]), which checks the
    bearer token ([web/module/user_authenticator.py] with
    [AuthService]/[JwtProvider]) and calls a service
    ([domain/service]); the game service runs the game rules and the
    minimax opponent on a [CurrentGame] and stores it through the
    repository and mapper of [datasource].

    ** Files, in dependency order

    - [Prelude.v] (this file): the scope [ttt_scope], the hint
      databases [ttt] and [ttt_rw], the tactics [invc], [zbool] and
      [case_ifs], a state-and-error monad [stE] (the store is kept when
      an error is raised: every [save] is committed at once), and the
      list lemmas of the loops ([fold_left_inv], [first_some]) and of
      keyed lookups ([find_key_*], the [.filter(...).first()] queries).
    - [Board.v]: [GameField] and [PlayerSymbol] ([domain/model]); the
      board is a list of rows of [Z]; [check_winner_symbol] and
      [is_board_full] are [_check_winner_symbol] and [_is_board_full] of
      [game_service_impl.py].
    - [Minimax.v]: [_minimax] and the move search of
      [_make_computer_move], with the float infinities as [zinf].
    - [Game.v]: [CurrentGame], [GameState], [GameType] and the domain
      part of [create_game], [join_game], [make_move] and
      [_update_game_state] as pure functions ([new_game], [join],
      [play]); the state machine [game_step] and its invariant.
    - [Persistence.v]: [CurrentGameEntity] and [GameMapper].
    - [Service.v]: the repository as the class [GameRepository] with
      the laws [GameRepositoryLaws] and a [gmap] instance; the service
      operations in the monad [stE] over any repository.
    - [Leaderboard.v]: [GameRepository.get_leaderboard] (counting,
      ratio as an exact rational, stable descending sort, cut) and
      [GameServiceImpl.get_leaderboard].
    - [Users.v]: the users table (a list of rows), [UserMapper],
      [UserRepository], [UserService]; two concurrent sign-ups as an
      explicit interleaving of the two round trips of [create_user].
    - [Auth.v]: [JwtProvider], [AuthService] and
      [UserAuthenticator.require_auth] over the token library as the
      class [JwtCodec] (laws [JwtCodecLaws]) and UUID text as the class
      [UuidText]; a plain-text codec ([RefCodec]) shows the laws
      satisfiable and runs the witnesses.
    - [Controllers.v]: JSON values with Python's truthiness, [in] and
      [[]]; [AuthController] and [UserController].
    - [GameController.v]: [GameController] and [GameDtoMapper].

    ** What is proved

    - The game: the invariant of every reachable game ([Game.v],
      [reachable_game_inv]) by rule induction on [game_step]; finished
      games are frozen; [_update_game_state] against a separate line
      predicate; [_check_winner_symbol] against [has_line]; the
      computer always answers in PvC; and that [make_move] accepts any
      3x3 board from the player to move (a finding).
    - The opponent: [_minimax] terminates with the fuel chosen and
      returns finite scores; an immediate win scores [9 - depth]; the
      chosen move is the first empty cell of maximal score.
    - The service refines the state machine over any lawful store
      ([make_move_refines], [join_game_refines]); creation and reading
      round-trip; unknown ids are rejected without writes; the mapper
      round-trips.
    - The leaderboard is the top [limit] users by (ratio, wins) with
      their exact counts; the limit checks and the bounds of answers.
    - Users and tokens: unique logins and ids in every table built by
      sign-ups, and the race that breaks uniqueness under concurrency;
      log-in checks the password digest; token lifetimes and types;
      refreshing keeps the identity.
    - HTTP: sign-up, log-in and [/auth/me] compose; the move endpoint
      answers as the service (unknown ids get 400, not the spec's 404);
      create and read of a game round-trip at the HTTP level.

    ** Fuel and bounds

    [minimax] takes fuel; [search_fuel b = S (count_empty b)] is enough
    because every recursive call fills one empty cell of a well-formed
    3x3 board, so at most 9 calls are nested ([minimax_total]).  No
    other recursion needs fuel.  Integers are unbounded, as in Python.

    ** Assumptions and choices

    UUIDs are [N]; [str(uuid)] and [UUID(s)] are the class [UuidText],
    which round-trips.  SHA-256 is a function parameter.  The JSON text
    of a stored board and of a request body is taken as parsed.  Times
    are integer seconds.  The win ratio is an exact rational, where the
    code has a float.  A symbol column outside {1, 2} is the error
    [InvalidStoredValue] at once.

    ** Not modelled

    Flask routing, [jsonify] and the HTTP server; dependency wiring
    ([di/container.py], [web/module/app.py], [main.py]) and the
    SQLAlchemy engine ([datasource/database.py]): they only connect the
    parts.  The [game_fields] table of [GameFieldEntity], which
    [CurrentGameEntity] references but no operation reads back apart
    from the board.  The cryptography of PyJWT and of SHA-256, the
    text of the enums' own [ValueError]s, [isoformat] and
    [round(x, 3)], which are parameters.  Boards whose cells are not
    JSON integers.  Concurrency is modelled only for sign-ups. *)

From Stdlib Require Import ZArith Lia.
From stdpp Require Import base list option decidable.

(** ** Notations, hint database and tactics shared by every file *)

Declare Scope ttt_scope.
Delimit Scope ttt_scope with ttt.

Create HintDb ttt.
Create Rewrite HintDb ttt_rw.

(** [invc H]: invert a hypothesis and substitute. *)
Ltac invc H := inversion H; subst; clear H.

(** [zbool]: turn every boolean test on [Z] or [nat] in the goal and the
    hypotheses into a proposition, splitting on the undecided ones. *)
Ltac zbool :=
  repeat match goal with
  | H : (_ =? _)%Z = true |- _ => apply Z.eqb_eq in H
  | H : (_ =? _)%Z = false |- _ => apply Z.eqb_neq in H
  | H : (_ <? _)%Z = true |- _ => apply Z.ltb_lt in H
  | H : (_ <? _)%Z = false |- _ => apply Z.ltb_ge in H
  | H : (_ <=? _)%Z = true |- _ => apply Z.leb_le in H
  | H : (_ <=? _)%Z = false |- _ => apply Z.leb_gt in H
  | H : (_ =? _)%nat = true |- _ => apply Nat.eqb_eq in H
  | H : (_ =? _)%nat = false |- _ => apply Nat.eqb_neq in H
  | H : (_ && _) = true |- _ => apply andb_prop in H as [? ?]
  end.

(** [case_ifs]: case on the innermost [if] of the goal, keeping the test. *)
Ltac case_ifs :=
  repeat match goal with
  | |- context [if ?c then _ else _] =>
      lazymatch c with
      | context [if _ then _ else _] => fail
      | _ => let E := fresh "E" in destruct c eqn:E
      end
  end.

(** ** A state-and-error monad

    The service layer commits every write as soon as it is made
    ([session.commit()] after each [save_game]), so a [ValueError]
    raised after a write leaves that write in the store.  The monad
    below therefore returns the store in both outcomes. *)

Definition stE (S E A : Type) : Type := S -> (E + A) * S.

Section StE.
Context {S E : Type}.

#[export] Instance stE_ret : MRet (stE S E) := fun A x s => (inr x, s).
#[export] Instance stE_bind : MBind (stE S E) :=
  fun A B f c s =>
    match c s with
    | (inl e, s') => (inl e, s')
    | (inr x, s') => f x s'
    end.

Definition raise {A} (e : E) : stE S E A := fun s => (inl e, s).
Definition get_st : stE S E S := fun s => (inr s, s).
Definition put_st (s : S) : stE S E unit := fun _ => (inr tt, s).
Definition modify_st (f : S -> S) : stE S E unit := fun s => (inr tt, f s).

Lemma stE_bind_ret_l {A B} (x : A) (f : A -> stE S E B) s :
  (mret x ≫= f) s = f x s.
Proof. reflexivity. Qed.

Lemma stE_bind_raise {A B} (e : E) (f : A -> stE S E B) s :
  (raise e ≫= f) s = (inl e, s).
Proof. reflexivity. Qed.

Lemma stE_bind_assoc {A B C} (c : stE S E A) (f : A -> stE S E B)
      (g : B -> stE S E C) s :
  ((c ≫= f) ≫= g) s = (c ≫= (fun x => f x ≫= g)) s.
Proof. unfold mbind, stE_bind. destruct (c s) as [[e|x] s']; reflexivity. Qed.

(** Running a bind whose first computation is known. *)
Lemma stE_bind_run {A B} (c : stE S E A) (f : A -> stE S E B) s x s' :
  c s = (inr x, s') -> (c ≫= f) s = f x s'.
Proof. intros H. unfold mbind, stE_bind. by rewrite H. Qed.

Lemma stE_bind_fail {A B} (c : stE S E A) (f : A -> stE S E B) s e s' :
  c s = (inl e, s') -> (c ≫= f) s = (inl e, s').
Proof. intros H. unfold mbind, stE_bind. by rewrite H. Qed.
End StE.

#[export] Hint Rewrite @stE_bind_ret_l @stE_bind_raise : ttt_rw.

(** ** Generic list lemmas used by the loop models

    The Python loops [for i in range(3): for j in range(3): ...] that
    update an accumulator are modelled by [fold_left] over the list of
    visited positions.  The two lemmas below are the induction
    principles every loop proof uses. *)

Section FoldInv.
Context {A B : Type}.

(** An invariant of the accumulator preserved by every step holds at
    the end of the loop. *)
Lemma fold_left_inv (P : A -> Prop) (f : A -> B -> A) (l : list B) (a : A) :
  P a -> (forall x y, In y l -> P x -> P (f x y)) -> P (fold_left f l a).
Proof.
  revert a. induction l as [|y l IH]; simpl; intros a Ha Hf; [done|].
  apply IH; [apply Hf; auto | intros; apply Hf; auto].
Qed.

(** Two loop bodies that agree on the visited elements compute the
    same result. *)
Lemma fold_left_ext_in (f g : A -> B -> A) (l : list B) (a : A) :
  (forall x y, In y l -> f x y = g x y) -> fold_left f l a = fold_left g l a.
Proof.
  revert a. induction l as [|y l IH]; simpl; intros a H; [done|].
  rewrite H by auto. apply IH; auto.
Qed.
End FoldInv.

Lemma length_filter_le {A} (p : A -> bool) (l : list A) :
  length (List.filter p l) <= length l.
Proof. induction l as [|x l IH]; simpl; [lia|]. destruct (p x); simpl; lia. Qed.

#[export] Hint Resolve length_filter_le : ttt.

(** [filter] after changing the test at one element of a duplicate-free
    list: the count drops by one. *)
Lemma length_filter_drop_one {A} (p q : A -> bool) (l : list A) (x : A) :
  List.NoDup l -> In x l -> p x = true -> q x = false ->
  (forall y, y <> x -> q y = p y) ->
  length (List.filter p l) = S (length (List.filter q l)).
Proof.
  intros Hnd Hin Hp Hq Hpq. induction l as [|y l IH]; [done|].
  apply NoDup_cons_iff in Hnd as [Hy Hnd]. simpl.
  destruct Hin as [<-|Hin].
  - rewrite Hp, Hq. simpl. f_equal. f_equal. apply filter_ext_in.
    intros a Ha. symmetry. apply Hpq. intros <-. done.
  - assert (y <> x) as Hyx by (intros ->; done).
    rewrite (Hpq y Hyx). destruct (p y); simpl; rewrite IH; auto.
Qed.

(** In a duplicate-free list an element splits the list in one way. *)
Lemma NoDup_split_unique {A} (l1 l2 l1' l2' : list A) (x : A) :
  List.NoDup (l1 ++ x :: l2) -> l1 ++ x :: l2 = l1' ++ x :: l2' -> l1 = l1'.
Proof.
  induction l1 as [|a l1 IH] in l1' |- *; intros Hnd Heq; destruct l1' as [|a' l1']; try done.
  - simpl in Heq. injection Heq as -> Heq. apply NoDup_cons_iff in Hnd as [Hx _].
    exfalso. apply Hx. rewrite Heq. apply in_or_app. simpl. auto.
  - simpl in Heq. injection Heq as <- Heq. apply NoDup_cons_iff in Hnd as [Hx _].
    exfalso. apply Hx. apply in_or_app. simpl. auto.
  - simpl in Heq. injection Heq as <- Heq. apply NoDup_cons_iff in Hnd as [_ Hnd].
    f_equal. eauto.
Qed.

(** A [forallb] of negated tests holds exactly when the filter is empty. *)
Lemma forallb_negb_filter {A} (p : A -> bool) (l : list A) :
  forallb (fun x => negb (p x)) l = true <-> length (List.filter p l) = 0.
Proof.
  induction l as [|x l IH]; simpl; [done|].
  destruct (p x); simpl; [split; [done|lia]|exact IH].
Qed.

Lemma forallb_false_exists {A} (f : A -> bool) (l : list A) :
  forallb f l = false -> exists x, In x l /\ f x = false.
Proof.
  induction l as [|x l IH]; simpl; [done|].
  destruct (f x) eqn:E; simpl; [|eauto].
  intros H. destruct (IH H) as (y & ? & ?). eauto.
Qed.

(** ** Early-return loops

    [for x in l: if test(x): return r(x)] followed by a fall-through
    [return None] is [first_some]. *)
Fixpoint first_some {A B} (f : A -> option B) (l : list A) : option B :=
  match l with
  | [] => None
  | x :: l' => match f x with Some y => Some y | None => first_some f l' end
  end.

Lemma first_some_Some {A B} (f : A -> option B) l y :
  first_some f l = Some y -> exists x, In x l /\ f x = Some y.
Proof.
  induction l as [|x l IH]; simpl; [done|].
  destruct (f x) eqn:E; [intros [= <-]; eauto|].
  intros H. destruct (IH H) as (x' & ? & ?). eauto.
Qed.

Lemma first_some_None {A B} (f : A -> option B) l :
  first_some f l = None <-> forall x, In x l -> f x = None.
Proof.
  induction l as [|x l IH]; simpl; [done|].
  destruct (f x) eqn:E; split; try done.
  - intros H. specialize (H x (or_introl eq_refl)). congruence.
  - intros H x' [<-|Hx]; [done|]. by apply IH.
  - intros H. apply IH. auto.
Qed.

(** ** Lists updated by index (stdpp [<[i:=x]>]) read with [nth] *)

Lemma nth_insert_eq {A} (l : list A) i x d :
  i < length l -> nth i (<[i:=x]> l) d = x.
Proof. intros. apply nth_lookup_Some. by apply list_lookup_insert_eq. Qed.

Lemma nth_insert_ne {A} (l : list A) i j x d :
  i <> j -> nth j (<[i:=x]> l) d = nth j l d.
Proof. intros. rewrite !nth_lookup, list_lookup_insert_ne; done. Qed.

#[export] Hint Rewrite @nth_insert_ne using lia : ttt_rw.

(** ** Lookups by key in a list of rows

    [query(...).filter(row.key == v).first()] is [List.find] with a
    boolean equality [eqb] on the key. *)

Section FindKey.
Context {A K : Type} (key : A -> K) (eqb : K -> K -> bool).
Hypothesis eqb_iff : forall a b, eqb a b = true <-> a = b.

Lemma find_key_Some l v x :
  List.find (fun y => eqb (key y) v) l = Some x -> In x l /\ key x = v.
Proof. intros [Hin Hk]%find_some. split; [done|]. by apply eqb_iff. Qed.

Lemma find_key_None l v :
  List.find (fun y => eqb (key y) v) l = None <-> forall x, In x l -> key x <> v.
Proof.
  split.
  - intros H x Hin Hk. apply (find_none _ _ H) in Hin. rewrite (proj2 (eqb_iff _ _) Hk) in Hin.
    done.
  - induction l as [|y l IH]; simpl; intros H; [done|].
    destruct (eqb (key y) v) eqn:E; [|auto]. apply eqb_iff in E. by destruct (H y (or_introl eq_refl)).
Qed.

Lemma find_key_In l x :
  List.NoDup (map key l) -> In x l -> List.find (fun y => eqb (key y) (key x)) l = Some x.
Proof.
  induction l as [|y l IH]; simpl; [done|]. intros [Hy Hnd]%NoDup_cons_iff [<-|Hin].
  - by rewrite (proj2 (eqb_iff _ _) eq_refl).
  - destruct (eqb (key y) (key x)) eqn:E; [|auto].
    apply eqb_iff in E. exfalso. apply Hy. rewrite E. by apply in_map.
Qed.

(** A row appended after no match is found only by its own key. *)
Lemma find_key_snoc l x v :
  List.find (fun y => eqb (key y) v) l = None ->
  List.find (fun y => eqb (key y) v) (l ++ [x]) = if eqb (key x) v then Some x else None.
Proof.
  induction l as [|y l IH]; simpl; [by destruct (eqb (key x) v)|].
  destruct (eqb (key y) v); [done|auto].
Qed.

Lemma NoDup_map_snoc l x :
  List.NoDup (map key l) -> (forall y, In y l -> key y <> key x) -> List.NoDup (map key (l ++ [x])).
Proof.
  induction l as [|y l IH]; simpl; intros Hnd Hx; [repeat constructor; by intros []|].
  apply NoDup_cons_iff in Hnd as [Hy Hnd]. constructor; [|auto].
  rewrite map_app, in_app_iff. intros [?|[Hk|[]]]; [done|]. by apply (Hx y); [left|].
Qed.
End FindKey.
