(* ===== verification/Board.v ===== *)
(** * The game field: cells, symbols, win and full-board detection

    Models [src/src/domain/model/game_field.py], [player_symbol.py] and
    the two board helpers of [game_service_impl.py]
    ([_check_winner_symbol], [_is_board_full]).  A board is the Python
    [List[List[int]]]: a list of rows of integers, indexed
    [board[i][j]]. *)

From Stdlib Require Import ZArith Lia.
From stdpp Require Import base list option decidable.
From S2P Require Import Prelude.

Local Open Scope Z_scope.

(** ** Cell values and boards ([game_field.py]) *)

Module GameField.
Definition EMPTY : Z := 0.
Definition PLAYER_X : Z := 1.
Definition PLAYER_O : Z := 2.

Definition default_board : list (list Z) := [[0;0;0];[0;0;0];[0;0;0]].

(** [GameField.__init__]: [self.board = board if board else ...]: an
    empty (falsy) list is replaced by the empty 3x3 board. *)
Definition init (board : list (list Z)) : list (list Z) :=
  match board with
  | [] => default_board
  | _ => board
  end.
End GameField.

Abbreviation board := (list (list Z)).

(** [board[i][j]].  Out of range the Python code would raise; every board
    that reaches the helpers below has passed the 3x3 check of
    [make_move] ([board_format_ok]), and the lemmas carry that
    hypothesis. *)
Definition cell (b : board) (i j : nat) : Z := nth j (nth i b []) 0.

(** [board[i][j] = v] (in place in Python, a new list here). *)
Definition set_cell (b : board) (i j : nat) (v : Z) : board :=
  <[i := <[j := v]> (nth i b [])]> b.

Notation "b .[ i , j ]" := (cell b i j) (at level 1, format "b .[ i ,  j ]") : ttt_scope.
Local Open Scope ttt_scope.

(** The guard of [make_move], line 102:
    [not board or len(board) != 3 or any(len(row) != 3 for row in board)]
    rejects the board; this is its negation. *)
Definition board_format_ok (b : board) : bool :=
  negb (bool_decide (b = [])) && (length b =? 3)%nat
  && forallb (fun row => (length row =? 3)%nat) b.

(** [for i in range(3): for j in range(3)]: the row-major scan order of
    every loop over the board. *)
Definition row_major : list (nat * nat) :=
  flat_map (fun i => map (fun j => (i, j)) (seq 0 3)) (seq 0 3).

(** ** Player symbols ([player_symbol.py]) *)

Module PlayerSymbol.
Inductive t := X | O.

#[global] Instance eq_dec : EqDecision t.
Proof. solve_decision. Defined.

Definition value (s : t) : Z :=
  match s with X => 1 | O => 2 end.

(** [from_value]: scan the members in declaration order. *)
Definition from_value (v : Z) : option t :=
  List.find (fun s => value s =? v) [X; O].

Definition opposite (s : t) : t :=
  if bool_decide (s = X) then O else X.
End PlayerSymbol.

Abbreviation PlayerSymbol := PlayerSymbol.t.
Abbreviation value := PlayerSymbol.value.

(** ** Win detection: [_check_winner_symbol] (lines 222-238)

    [board[a] == board[b] == board[c] != 0] is the chained comparison
    [a == b and b == c and c != 0]; the first such line in the order
    rows, columns, main diagonal, anti-diagonal gives its first cell. *)
Definition line3 (a b c : Z) : option Z :=
  if (a =? b) && (b =? c) && negb (c =? 0) then Some a else None.

Definition win_lines : list ((nat * nat) * (nat * nat) * (nat * nat)) :=
  map (fun i => ((i, 0%nat), (i, 1%nat), (i, 2%nat))) (seq 0 3)
  ++ map (fun j => ((0%nat, j), (1%nat, j), (2%nat, j))) (seq 0 3)
  ++ [((0%nat, 0%nat), (1%nat, 1%nat), (2%nat, 2%nat));
      ((0%nat, 2%nat), (1%nat, 1%nat), (2%nat, 0%nat))].

Definition check_winner_symbol (b : board) : option Z :=
  first_some (fun '((p, q), r) =>
    line3 (b.[p.1, p.2]) (b.[q.1, q.2]) (b.[r.1, r.2])) win_lines.

(** [_is_board_full] (lines 240-242). *)
Definition is_board_full (b : board) : bool :=
  forallb (fun '(i, j) => negb (b.[i, j] =? 0)) row_major.

(** The number of empty cells: the measure that bounds the search. *)
Definition count_empty (b : board) : nat :=
  length (List.filter (fun '(i, j) => b.[i, j] =? 0) row_major).

(** ** Well-formed boards *)

(** The shape [make_move] admits: three rows of three cells. *)
Definition board_wf (b : board) : Prop :=
  length b = 3%nat /\ Forall (fun row => length row = 3%nat) b.

Lemma board_format_ok_wf b : board_format_ok b = true <-> board_wf b.
Proof.
  unfold board_format_ok, board_wf. rewrite !andb_true_iff, forallb_forall, Forall_forall.
  split.
  - intros [[_ Hl] Hr]. apply Nat.eqb_eq in Hl. split; [done|].
    intros r Hin. apply Nat.eqb_eq. auto.
  - intros [Hl Hr]. split; [split|].
    + destruct b; [done|]. reflexivity.
    + by apply Nat.eqb_eq.
    + intros r Hin. apply Nat.eqb_eq. auto.
Qed.

Lemma board_wf_row b i : board_wf b -> (i < 3)%nat -> length (nth i b []) = 3%nat.
Proof.
  intros [Hl Hr] Hi. rewrite Forall_nth in Hr. apply Hr. lia.
Qed.

Lemma set_cell_wf b i j v : board_wf b -> board_wf (set_cell b i j v).
Proof.
  intros Hwf. unfold set_cell. destruct (decide (i < 3)%nat) as [Hi|Hi].
  - destruct Hwf as [Hl Hr]. split; [by rewrite length_insert|].
    apply Forall_insert; [done|]. rewrite length_insert. by apply board_wf_row.
  - rewrite list_insert_ge; [done|]. destruct Hwf; lia.
Qed.

Lemma cell_set_cell b i j v i' j' :
  board_wf b -> (i < 3)%nat -> (j < 3)%nat ->
  (set_cell b i j v).[i', j'] = if decide ((i', j') = (i, j)) then v else b.[i', j'].
Proof.
  intros Hwf Hi Hj. unfold cell, set_cell.
  destruct (decide (i' = i)) as [->|Hne].
  - rewrite nth_insert_eq by (destruct Hwf; lia).
    destruct (decide (j' = j)) as [->|Hne'].
    + rewrite decide_True by done. apply nth_insert_eq. rewrite board_wf_row by done; lia.
    + rewrite decide_False by congruence. by apply nth_insert_ne.
  - rewrite decide_False by congruence. by rewrite nth_insert_ne.
Qed.

Lemma in_row_major i j : In (i, j) row_major <-> (i < 3 /\ j < 3)%nat.
Proof.
  split.
  - simpl. intros H. repeat destruct H as [H|H]; try done; injection H; lia.
  - intros [Hi Hj]. simpl.
    destruct i as [|[|[|i]]]; destruct j as [|[|[|j]]]; try lia; tauto.
Qed.

Lemma row_major_NoDup : List.NoDup row_major.
Proof. apply NoDup_ListNoDup. apply (bool_decide_unpack _). by vm_compute. Qed.

Lemma length_row_major : length row_major = 9%nat.
Proof. reflexivity. Qed.

Lemma count_empty_le b : (count_empty b <= 9)%nat.
Proof. unfold count_empty. rewrite <- length_row_major. apply length_filter_le. Qed.

(** Filling an empty cell with a mark removes exactly one empty cell. *)
Lemma count_empty_set_cell b i j v :
  board_wf b -> In (i, j) row_major -> b.[i, j] = 0 -> v <> 0 ->
  count_empty b = S (count_empty (set_cell b i j v)).
Proof.
  intros Hwf Hin H0 Hv. pose proof (proj1 (in_row_major _ _) Hin) as [Hi Hj].
  unfold count_empty. apply (length_filter_drop_one _ _ _ (i, j));
    [apply row_major_NoDup | done | simpl; by rewrite H0 | |].
  - simpl. rewrite cell_set_cell, decide_True by done. by apply Z.eqb_neq.
  - intros [i' j'] Hne. rewrite cell_set_cell, decide_False by done. done.
Qed.

Lemma is_board_full_count b : is_board_full b = true <-> count_empty b = 0%nat.
Proof.
  unfold is_board_full, count_empty. rewrite <- forallb_negb_filter.
  apply iff_refl.
Qed.

Lemma not_full_has_empty b :
  is_board_full b = false -> exists i j, In (i, j) row_major /\ b.[i, j] = 0.
Proof.
  unfold is_board_full. intros H.
  apply forallb_false_exists in H as ([i j] & Hin & Hc).
  exists i, j. split; [done|]. apply negb_false_iff, Z.eqb_eq in Hc. done.
Qed.

(** ** Win detection against its specification *)

Lemma line3_Some a b c w : line3 a b c = Some w <-> a = w /\ b = w /\ c = w /\ w <> 0.
Proof.
  unfold line3.
  destruct (Z.eqb_spec a b), (Z.eqb_spec b c), (Z.eqb_spec c 0); subst; simpl;
    naive_solver.
Qed.

(** A row, a column or a diagonal holding [w] three times (spec, 4.2). *)
Definition has_line (b : board) (w : Z) : Prop :=
  (exists i, (i < 3)%nat /\ b.[i, 0] = w /\ b.[i, 1] = w /\ b.[i, 2] = w) \/
  (exists j, (j < 3)%nat /\ b.[0, j] = w /\ b.[1, j] = w /\ b.[2, j] = w) \/
  (b.[0, 0] = w /\ b.[1, 1] = w /\ b.[2, 2] = w) \/
  (b.[0, 2] = w /\ b.[1, 1] = w /\ b.[2, 0] = w).

Definition line_value (b : board) (t : (nat * nat) * (nat * nat) * (nat * nat)) : option Z :=
  let '((p, q), r) := t in line3 (b.[p.1, p.2]) (b.[q.1, q.2]) (b.[r.1, r.2]).

Lemma has_line_win_lines b w :
  w <> 0 -> has_line b w <-> exists t, In t win_lines /\ line_value b t = Some w.
Proof.
  intros Hw. unfold has_line. split.
  - intros [(i & Hi & H)|[(j & Hj & H)|[H|H]]].
    + exists ((i, 0%nat), (i, 1%nat), (i, 2%nat)). split; [|apply line3_Some; tauto].
      destruct i as [|[|[|]]]; simpl; tauto || lia.
    + exists ((0%nat, j), (1%nat, j), (2%nat, j)). split; [|apply line3_Some; tauto].
      destruct j as [|[|[|]]]; simpl; tauto || lia.
    + exists ((0%nat, 0%nat), (1%nat, 1%nat), (2%nat, 2%nat)).
      split; [simpl; tauto | apply line3_Some; tauto].
    + exists ((0%nat, 2%nat), (1%nat, 1%nat), (2%nat, 0%nat)).
      split; [simpl; tauto | apply line3_Some; tauto].
  - intros (t & Hin & Hv). simpl in Hin.
    repeat destruct Hin as [<-|Hin]; try done; simpl in Hv;
      apply line3_Some in Hv as (? & ? & ? & _).
    all: first
      [ left; eexists; split; [|split_and!; eassumption]; lia
      | right; left; eexists; split; [|split_and!; eassumption]; lia
      | right; right; left; split_and!; assumption
      | right; right; right; split_and!; assumption ].
Qed.

(** C7: [_check_winner_symbol] returns a symbol exactly when some row,
    column or diagonal holds three equal non-empty cells, and the
    symbol it returns is the one on such a line. *)
Theorem check_winner_symbol_spec b :
  (forall w, check_winner_symbol b = Some w -> w <> 0 /\ has_line b w) /\
  (check_winner_symbol b = None <-> forall w, w <> 0 -> ~ has_line b w).
Proof.
  split.
  - intros w Hc. apply first_some_Some in Hc as (t & Hin & Ht).
    assert (w <> 0) as Hw.
    { destruct t as [[p q] r]. apply line3_Some in Ht. tauto. }
    split; [done|]. apply has_line_win_lines; [done|]. exists t. by destruct t as [[? ?] ?].
  - unfold check_winner_symbol. rewrite first_some_None. split.
    + intros Hall w Hw Hl. apply has_line_win_lines in Hl as (t & Hin & Ht); [|done].
      specialize (Hall t Hin). destruct t as [[? ?] ?]. simpl in Ht. congruence.
    + intros Hno [[p q] r] Hin.
      destruct (line3 _ _ _) as [w|] eqn:E; [|done].
      exfalso. assert (w <> 0) as Hw by (apply line3_Some in E; tauto).
      apply (Hno w Hw), has_line_win_lines; [done|]. by exists ((p, q), r).
Qed.

(** The symbol found is a cell of the board (it is read from it). *)
Lemma check_winner_symbol_cell b w :
  check_winner_symbol b = Some w -> exists i j, In (i, j) row_major /\ b.[i, j] = w.
Proof.
  intros Hc. apply first_some_Some in Hc as (t & Hin & Ht).
  simpl in Hin. repeat destruct Hin as [<-|Hin]; try done; simpl in Ht;
    apply line3_Some in Ht as (<- & _); (do 2 eexists; split; [|reflexivity]; simpl; tauto).
Qed.

(** ** Symbols *)

Import PlayerSymbol.

Lemma value_nonzero s : value s <> 0.
Proof. by destruct s. Qed.

Lemma value_inj s1 s2 : value s1 = value s2 -> s1 = s2.
Proof. by destruct s1, s2. Qed.

(** C14: [PlayerSymbol.from_value] inverts [.value], and accepts nothing
    but the values of the two members. *)
Theorem from_value_roundtrip s v :
  from_value (value s) = Some s /\ (from_value v = Some s -> value s = v).
Proof.
  split; [by destruct s|]. unfold from_value, List.find.
  destruct (value X =? v) eqn:E1; [intros [= <-]; by apply Z.eqb_eq|].
  destruct (value O =? v) eqn:E2; [intros [= <-]; by apply Z.eqb_eq|done].
Qed.

Lemma opposite_value s : value (opposite s) <> value s.
Proof. by destruct s. Qed.

#[export] Hint Resolve value_nonzero set_cell_wf : ttt.

(** Clients evaluate these on concrete boards with [vm_compute]; on a
    symbolic board [simpl] would expand every line test. *)
Arguments check_winner_symbol : simpl never.
Arguments is_board_full : simpl never.
