(* ===== verification/Minimax.v ===== *)
(** * The computer opponent: exhaustive minimax

    Models [_minimax] (lines 161-201) and the move search of
    [_make_computer_move] (lines 124-147) of
    [src/src/domain/service/game_service_impl.py].  The Python scores
    start from [float("-inf")] / [float("inf")] and are compared with
    integers, so a score is an integer extended with the two
    infinities ([zinf]).  The recursion is bounded by the number of
    empty cells; the model takes explicit fuel and returns [None] when
    it runs out, and [minimax_total] shows that the fuel chosen
    ([search_fuel]) is never exhausted. *)

From Stdlib Require Import ZArith Lia.
From stdpp Require Import base list option decidable.
From S2P Require Import Prelude Board.

Local Open Scope Z_scope.
Local Open Scope ttt_scope.

(** ** Integers with the two float infinities *)

Inductive zinf := NegInf | Fin (z : Z) | PosInf.

#[export] Instance zinf_eq_dec : EqDecision zinf.
Proof. solve_decision. Defined.

(** Python's [<] between [int] and [float('±inf')]. *)
Definition zinf_lt (a b : zinf) : bool :=
  match a, b with
  | NegInf, NegInf => false
  | NegInf, _ => true
  | Fin x, Fin y => x <? y
  | Fin _, PosInf => true
  | _, _ => false
  end.

(** [max(score, best_score)] keeps its first argument unless the second
    is strictly greater; [min] likewise with strictly smaller. *)
Definition zmax (a b : zinf) : zinf := if zinf_lt a b then b else a.
Definition zmin (a b : zinf) : zinf := if zinf_lt b a then b else a.

(** ** [_minimax] *)

(** The two loops of [_minimax] (lines 178-201) differ only in the mark
    placed, the starting score and the combination ([max] or [min]):

    [best_score = start
     for i in range(3): for j in range(3):
       if board[i][j] == 0:
         board[i][j] = mark; score = <recursive call>; board[i][j] = 0
         best_score = pick(score, best_score)]

    The mark is written and then erased again, so each recursive call
    sees [board] with one cell set, and the loop ends with [board]
    unchanged.  [rec] is the recursive call. *)
Definition scan_step (board : list (list Z)) (mark : Z)
    (pick : zinf -> zinf -> zinf) (rec : list (list Z) -> option zinf)
    (best_score : option zinf) (ij : nat * nat) : option zinf :=
  let '(i, j) := ij in
  if board.[i, j] =? 0 then
    match best_score, rec (set_cell board i j mark) with
    | Some best, Some score => Some (pick score best)
    | _, _ => None
    end
  else best_score.

Definition scan_moves (board : list (list Z)) (mark : Z) (start : zinf)
    (pick : zinf -> zinf -> zinf) (rec : list (list Z) -> option zinf) : option zinf :=
  fold_left (scan_step board mark pick rec) row_major (Some start).

Fixpoint minimax (fuel : nat) (board : list (list Z)) (depth : Z)
    (is_maximizing : bool) (computer_symbol player_symbol : PlayerSymbol)
    : option zinf :=
  match fuel with
  | 0%nat => None
  | S fuel' =>
    let winner_symbol := check_winner_symbol board in
    if bool_decide (winner_symbol = Some (value computer_symbol)) then
      Some (Fin (10 - depth))
    else if bool_decide (winner_symbol = Some (value player_symbol)) then
      Some (Fin (depth - 10))
    else if is_board_full board then Some (Fin 0)
    else if is_maximizing then
      scan_moves board (value computer_symbol) NegInf zmax
        (fun b' => minimax fuel' b' (depth + 1) false computer_symbol player_symbol)
    else
      scan_moves board (value player_symbol) PosInf zmin
        (fun b' => minimax fuel' b' (depth + 1) true computer_symbol player_symbol)
  end.

(** One call per empty cell and one for the position itself. *)
Definition search_fuel (b : board) : nat := S (count_empty b).

(** ** The move search of [_make_computer_move]

    [score = self._minimax(board, 0, False, ...)] after placing the
    computer's mark, and the move is replaced only by a strictly larger
    score: ties go to the first cell in row-major order. *)
Definition move_score (b : board) (computer_symbol player_symbol : PlayerSymbol)
    (i j : nat) : option zinf :=
  let b' := set_cell b i j (value computer_symbol) in
  minimax (search_fuel b') b' 0 false computer_symbol player_symbol.

Definition choose_step (board : list (list Z)) (computer_symbol player_symbol : PlayerSymbol)
    (acc : zinf * option (nat * nat)) (ij : nat * nat) : zinf * option (nat * nat) :=
  let '(best_score, best_move) := acc in
  let '(i, j) := ij in
  if board.[i, j] =? 0 then
    match move_score board computer_symbol player_symbol i j with
    | Some score =>
        if zinf_lt best_score score then (score, Some (i, j))
        else (best_score, best_move)
    | None => (best_score, best_move)
    end
  else (best_score, best_move).

(** [best_score = float("-inf"); best_move = None] and the scan. *)
Definition choose_move (board : list (list Z)) (computer_symbol player_symbol : PlayerSymbol)
    : zinf * option (nat * nat) :=
  fold_left (choose_step board computer_symbol player_symbol) row_major (NegInf, None).

Example choose_move_blocks_or_wins :
  (choose_move [[1;1;0];[2;2;0];[0;0;0]] PlayerSymbol.O PlayerSymbol.X).2 = Some (1%nat, 2%nat) /\
  (choose_move [[1;1;0];[2;2;0];[0;0;0]] PlayerSymbol.X PlayerSymbol.O).2 = Some (0%nat, 2%nat).
Proof. split; vm_compute; reflexivity. Qed.

(** ** The order on scores *)

Definition zle (a b : zinf) : Prop := zinf_lt b a = false.

Lemma zle_refl a : zle a a.
Proof. destruct a; unfold zle; simpl; try done. apply Z.ltb_irrefl. Qed.

Lemma zle_trans a b c : zle a b -> zle b c -> zle a c.
Proof.
  unfold zle. destruct a, b, c; simpl; try done. intros; zbool. apply Z.ltb_ge. lia.
Qed.

Lemma zle_fin x y : zle (Fin x) (Fin y) <-> x <= y.
Proof. unfold zle. simpl. rewrite Z.ltb_ge. done. Qed.

Lemma zmax_l s b : zle b (zmax s b).
Proof.
  unfold zmax, zle. destruct (zinf_lt s b) eqn:E; [apply zle_refl|].
  destruct s, b; simpl in *; zbool; try done; apply Z.ltb_ge; lia.
Qed.

Lemma zmax_r s b : zle s (zmax s b).
Proof.
  unfold zmax, zle. destruct (zinf_lt s b) eqn:E; [|apply zle_refl].
  destruct s, b; simpl in *; zbool; try done; apply Z.ltb_ge; lia.
Qed.

Lemma zmin_l s b : zle (zmin s b) b.
Proof.
  unfold zmin, zle. destruct (zinf_lt b s) eqn:E; [apply zle_refl|].
  destruct s, b; simpl in *; zbool; try done; apply Z.ltb_ge; lia.
Qed.

Lemma zmin_r s b : zle (zmin s b) s.
Proof.
  unfold zmin, zle. destruct (zinf_lt b s) eqn:E; [|apply zle_refl].
  destruct s, b; simpl in *; zbool; try done; apply Z.ltb_ge; lia.
Qed.

Lemma zmax_cases s b : zmax s b = s \/ zmax s b = b.
Proof. unfold zmax. destruct (zinf_lt s b); auto. Qed.

Lemma zmin_cases s b : zmin s b = s \/ zmin s b = b.
Proof. unfold zmin. destruct (zinf_lt b s); auto. Qed.

(** ** The scan loop

    One lemma covers both loops: for an order [R] in which [pick]
    returns one of its arguments and dominates both, the loop returns
    a score that dominates the start and every child, and is the start
    or one of the children. *)

Section Scan.
Context (R : zinf -> zinf -> Prop) (pick : zinf -> zinf -> zinf).
Hypothesis R_refl : forall x, R x x.
Hypothesis R_trans : forall x y z, R x y -> R y z -> R x z.
Hypothesis pick_best : forall s b, R b (pick s b).
Hypothesis pick_score : forall s b, R s (pick s b).
Hypothesis pick_cases : forall s b, pick s b = s \/ pick s b = b.
Context (b : board) (mark : Z) (rec : board -> option zinf).

Lemma scan_fold l a :
  (forall i j, In (i, j) l -> b.[i, j] = 0 -> exists v, rec (set_cell b i j mark) = Some v) ->
  exists r, fold_left (scan_step b mark pick rec) l (Some a) = Some r /\ R a r /\
    (forall i j v, In (i, j) l -> b.[i, j] = 0 -> rec (set_cell b i j mark) = Some v -> R v r) /\
    (r = a \/ exists i j, In (i, j) l /\ b.[i, j] = 0 /\ rec (set_cell b i j mark) = Some r).
Proof.
  induction l as [|[i j] l IH] in a |- *; intros Hall.
  { exists a. simpl. split_and!; auto. by intros ? ? ? []. }
  simpl. destruct (b.[i, j] =? 0) eqn:E; zbool.
  - destruct (Hall i j ltac:(by left) E) as [v Hv]. rewrite Hv.
    destruct (IH (pick v a) ltac:(intros ? ? ? ?; apply Hall; [by right|done])) as (r & Hr & Har & Hch & Hwho).
    exists r. split_and!; [done|eauto| |].
    + intros i' j' v' [[= <- <-]|Hin] H0 Hv'; [|eauto].
      rewrite Hv in Hv'. injection Hv' as <-. eauto.
    + destruct Hwho as [->|(i' & j' & ? & ? & ?)]; [|right; exists i', j'; auto].
      destruct (pick_cases v a) as [->| ->]; [|by left].
      right. exists i, j. auto.
  - destruct (IH a ltac:(intros ? ? ? ?; apply Hall; [by right|done])) as (r & Hr & Har & Hch & Hwho).
    exists r. split_and!; [done|done| |].
    + intros i' j' v' [[= <- <-]|Hin] H0 Hv'; [congruence|eauto].
    + destruct Hwho as [->|(i' & j' & ? & ? & ?)]; [by left|right; exists i', j'; auto].
Qed.
End Scan.

(** The maximising loop over a board with an empty cell whose children
    all have finite scores returns the largest of them. *)
Lemma scan_moves_max b mark rec :
  (forall i j, In (i, j) row_major -> b.[i, j] = 0 ->
     exists z, rec (set_cell b i j mark) = Some (Fin z)) ->
  (exists i j, In (i, j) row_major /\ b.[i, j] = 0) ->
  exists i j z, In (i, j) row_major /\ b.[i, j] = 0 /\
    rec (set_cell b i j mark) = Some (Fin z) /\
    scan_moves b mark NegInf zmax rec = Some (Fin z) /\
    (forall i' j' z', In (i', j') row_major -> b.[i', j'] = 0 ->
       rec (set_cell b i' j' mark) = Some (Fin z') -> z' <= z).
Proof.
  intros Hall (i0 & j0 & Hin0 & H0).
  destruct (scan_fold zle zmax zle_refl zle_trans zmax_l zmax_r zmax_cases b mark rec
              row_major NegInf) as (r & Hr & _ & Hch & Hwho).
  { intros i j Hin He. destruct (Hall i j Hin He) as [z Hz]. eauto. }
  destruct (Hall i0 j0 Hin0 H0) as [z0 Hz0].
  destruct Hwho as [->|(i & j & Hin & He & Hrec)].
  { specialize (Hch _ _ _ Hin0 H0 Hz0). done. }
  destruct (Hall i j Hin He) as [z Hz]. rewrite Hz in Hrec. injection Hrec as <-.
  exists i, j, z. split_and!; try done.
  intros i' j' z' Hin' He' Hz'. apply zle_fin. eauto.
Qed.

Lemma scan_moves_min b mark rec :
  (forall i j, In (i, j) row_major -> b.[i, j] = 0 ->
     exists z, rec (set_cell b i j mark) = Some (Fin z)) ->
  (exists i j, In (i, j) row_major /\ b.[i, j] = 0) ->
  exists i j z, In (i, j) row_major /\ b.[i, j] = 0 /\
    rec (set_cell b i j mark) = Some (Fin z) /\
    scan_moves b mark PosInf zmin rec = Some (Fin z) /\
    (forall i' j' z', In (i', j') row_major -> b.[i', j'] = 0 ->
       rec (set_cell b i' j' mark) = Some (Fin z') -> z <= z').
Proof.
  intros Hall (i0 & j0 & Hin0 & H0).
  destruct (scan_fold (fun x y => zle y x) zmin zle_refl
              (fun x y z Hxy Hyz => zle_trans _ _ _ Hyz Hxy) zmin_l zmin_r zmin_cases
              b mark rec row_major PosInf) as (r & Hr & _ & Hch & Hwho).
  { intros i j Hin He. destruct (Hall i j Hin He) as [z Hz]. eauto. }
  destruct (Hall i0 j0 Hin0 H0) as [z0 Hz0].
  destruct Hwho as [->|(i & j & Hin & He & Hrec)].
  { specialize (Hch _ _ _ Hin0 H0 Hz0). done. }
  destruct (Hall i j Hin He) as [z Hz]. rewrite Hz in Hrec. injection Hrec as <-.
  exists i, j, z. split_and!; try done.
  intros i' j' z' Hin' He' Hz'. apply zle_fin. eapply Hch; eauto.
Qed.

(** Two recursive calls that agree on every child give the same loop. *)
Lemma scan_moves_ext b mark start pick rec1 rec2 :
  (forall i j, In (i, j) row_major -> b.[i, j] = 0 ->
     rec1 (set_cell b i j mark) = rec2 (set_cell b i j mark)) ->
  scan_moves b mark start pick rec1 = scan_moves b mark start pick rec2.
Proof.
  intros H. unfold scan_moves. apply fold_left_ext_in. intros acc [i j] Hin.
  simpl. destruct (b.[i, j] =? 0) eqn:E; [zbool; by rewrite H|done].
Qed.

(** Every child of a well-formed board is well-formed and has one empty
    cell less. *)
Lemma child_measure b i j mark :
  board_wf b -> In (i, j) row_major -> b.[i, j] = 0 -> mark <> 0 ->
  board_wf (set_cell b i j mark) /\
  count_empty b = S (count_empty (set_cell b i j mark)).
Proof. intros. split; [by apply set_cell_wf | by apply count_empty_set_cell]. Qed.

(** [case_terminal]: split on the three early returns of [_minimax]. *)
Ltac case_terminal :=
  cbn [minimax]; case_bool_decide; [|case_bool_decide; [|destruct (is_board_full _) eqn:?]].

(** C6: termination of [_minimax]: on a 3x3 board, fuel exceeding the
    number of empty cells is never exhausted, and the score is a finite
    integer (never one of the [float] infinities). *)
Theorem minimax_total fuel b depth m c p :
  board_wf b -> (count_empty b < fuel)%nat ->
  exists z, minimax fuel b depth m c p = Some (Fin z).
Proof.
  induction fuel as [|f IH] in b, depth, m |- *; intros Hwf Hf; [lia|].
  case_terminal; eauto.
  assert (Hrec : forall mark m', mark <> 0 -> forall i j, In (i, j) row_major -> b.[i, j] = 0 ->
            exists z, minimax f (set_cell b i j mark) (depth + 1) m' c p = Some (Fin z)).
  { intros mark m' Hm i j Hin He. destruct (child_measure b i j mark) as [Hwf' Hc]; auto.
    apply IH; [done|lia]. }
  destruct m; [ destruct (scan_moves_max b (value c)
                  (fun b' => minimax f b' (depth + 1) false c p)) as (? & ? & z & _ & _ & _ & Hz & _)
              | destruct (scan_moves_min b (value p)
                  (fun b' => minimax f b' (depth + 1) true c p)) as (? & ? & z & _ & _ & _ & Hz & _) ];
    eauto using not_full_has_empty, value_nonzero.
Qed.

(** Any two sufficient fuels compute the same score. *)
Lemma minimax_fuel_irrel f1 f2 b depth m c p :
  board_wf b -> (count_empty b < f1)%nat -> (count_empty b < f2)%nat ->
  minimax f1 b depth m c p = minimax f2 b depth m c p.
Proof.
  induction f1 as [|f1 IH] in f2, b, depth, m |- *; intros Hwf H1 H2; [lia|].
  destruct f2 as [|f2]; [lia|]. cbn [minimax].
  case_bool_decide; [done|]. case_bool_decide; [done|].
  destruct (is_board_full b); [done|].
  destruct m; apply scan_moves_ext; intros i j Hin He;
    [ pose proof (child_measure b i j (value c) Hwf Hin He (value_nonzero c)) as [? ?]
    | pose proof (child_measure b i j (value p) Hwf Hin He (value_nonzero p)) as [? ?] ];
    apply IH; auto; lia.
Qed.

(** The children of a position the search does not stop at all have
    finite scores. *)
Lemma minimax_children f b depth m c p mark :
  board_wf b -> (count_empty b < S f)%nat -> mark <> 0 ->
  forall i j, In (i, j) row_major -> b.[i, j] = 0 ->
  exists z, minimax f (set_cell b i j mark) (depth + 1) m c p = Some (Fin z).
Proof.
  intros Hwf Hf Hm i j Hin He. destruct (child_measure b i j mark) as [Hwf' Hc]; auto.
  apply minimax_total; [done|lia].
Qed.

(** The score of a position at depth [depth] lies between
    [depth - 10] and [10 - depth]: a win found at depth [d'] scores
    [10 - d'] and a loss [d' - 10]. *)
Lemma minimax_bounds fuel b depth m c p z :
  board_wf b -> (count_empty b < fuel)%nat -> depth + Z.of_nat (count_empty b) <= 10 ->
  minimax fuel b depth m c p = Some (Fin z) -> depth - 10 <= z <= 10 - depth.
Proof.
  induction fuel as [|f IH] in b, depth, m, z |- *; intros Hwf Hf Hd; [lia|].
  case_terminal; try (intros [= <-]; lia).
  pose proof (not_full_has_empty b ltac:(done)) as Hex.
  destruct m;
    [ destruct (scan_moves_max b (value c) (fun b' => minimax f b' (depth + 1) false c p))
        as (i & j & z' & Hin & He & Hz' & -> & _)
    | destruct (scan_moves_min b (value p) (fun b' => minimax f b' (depth + 1) true c p))
        as (i & j & z' & Hin & He & Hz' & -> & _) ];
    eauto using minimax_children, value_nonzero; intros [= <-];
    [ pose proof (child_measure b i j (value c) Hwf Hin He (value_nonzero c)) as [Hwf' Hc]
    | pose proof (child_measure b i j (value p) Hwf Hin He (value_nonzero p)) as [Hwf' Hc] ];
    assert (depth + 1 - 10 <= z' <= 10 - (depth + 1)) by (eapply IH; [exact Hwf'|lia|lia|exact Hz']);
    lia.
Qed.

(** C8: the search prefers the fastest outcome: on a position without
    a line, if the side to move can complete a line with one mark, the
    score is exactly the best the bounds allow, [9 - depth] for the
    computer (maximising) and [depth - 9] for the player (minimising).
    So a win on the next move is never ranked below a later win, and
    the depth of the recursive call is [depth + 1]. *)
Theorem minimax_immediate_win fuel b depth c p i j :
  board_wf b -> (count_empty b < fuel)%nat -> depth + Z.of_nat (count_empty b) <= 10 ->
  c <> p -> check_winner_symbol b = None ->
  In (i, j) row_major -> b.[i, j] = 0 ->
  (check_winner_symbol (set_cell b i j (value c)) = Some (value c) ->
     minimax fuel b depth true c p = Some (Fin (9 - depth))) /\
  (check_winner_symbol (set_cell b i j (value p)) = Some (value p) ->
     minimax fuel b depth false c p = Some (Fin (depth - 9))).
Proof.
  intros Hwf Hf Hd Hcp Hnone Hin He. destruct fuel as [|f]; [lia|].
  pose proof (count_empty_set_cell b i j (value c) Hwf Hin He (value_nonzero c)) as Hcnt.
  assert (Hfull : is_board_full b = false).
  { destruct (is_board_full b) eqn:E; [|done]. apply is_board_full_count in E. lia. }
  assert (Hnw : forall s, bool_decide (check_winner_symbol b = Some (value s)) = false)
    by (intros; rewrite Hnone; by apply bool_decide_eq_false_2).
  assert (Hex : exists i j, In (i, j) row_major /\ b.[i, j] = 0) by eauto.
  cbn [minimax]. rewrite !Hnw, Hfull. destruct f as [|f]; [lia|]. split; intros Hwin.
  - destruct (scan_moves_max b (value c) (fun b' => minimax (S f) b' (depth + 1) false c p))
      as (i' & j' & z & Hin' & He' & Hz' & -> & Hmax);
      [eauto using minimax_children, value_nonzero|done|].
    assert (Hch : minimax (S f) (set_cell b i j (value c)) (depth + 1) false c p =
                  Some (Fin (10 - (depth + 1)))).
    { cbn [minimax]. rewrite Hwin, bool_decide_eq_true_2 by done. reflexivity. }
    pose proof (Hmax i j _ Hin He Hch).
    destruct (child_measure b i' j' (value c) Hwf Hin' He' (value_nonzero c)) as [Hwf' Hc'].
    assert (depth + 1 - 10 <= z <= 10 - (depth + 1))
      by (eapply minimax_bounds; [exact Hwf'| | |exact Hz']; lia).
    do 2 f_equal. lia.
  - destruct (scan_moves_min b (value p) (fun b' => minimax (S f) b' (depth + 1) true c p))
      as (i' & j' & z & Hin' & He' & Hz' & -> & Hmin);
      [eauto using minimax_children, value_nonzero|done|].
    assert (Hch : minimax (S f) (set_cell b i j (value p)) (depth + 1) true c p =
                  Some (Fin (depth + 1 - 10))).
    { cbn [minimax]. rewrite Hwin, bool_decide_eq_false_2, bool_decide_eq_true_2 by
        (done || (intros [= ?%value_inj]; congruence)). reflexivity. }
    pose proof (Hmin i j _ Hin He Hch).
    destruct (child_measure b i' j' (value p) Hwf Hin' He' (value_nonzero p)) as [Hwf' Hc'].
    assert (depth + 1 - 10 <= z <= 10 - (depth + 1))
      by (eapply minimax_bounds; [exact Hwf'| | |exact Hz']; lia).
    do 2 f_equal. lia.
Qed.

(** ** The move the computer picks *)

Lemma zlt_le_trans a b c : zinf_lt a b = true -> zle b c -> zinf_lt a c = true.
Proof. unfold zle. destruct a, b, c; simpl; try done. intros; zbool. apply Z.ltb_lt. lia. Qed.

Lemma zle_lt_trans a b c : zle a b -> zinf_lt b c = true -> zinf_lt a c = true.
Proof. unfold zle. destruct a, b, c; simpl; try done. intros; zbool. apply Z.ltb_lt. lia. Qed.

Lemma zlt_zle a b : zinf_lt a b = true -> zle a b.
Proof. unfold zle. destruct a, b; simpl; try done. intros; zbool. apply Z.ltb_ge. lia. Qed.

(** Every score of a well-formed board's empty cell is finite. *)
Lemma move_score_total b c p i j :
  board_wf b -> In (i, j) row_major -> b.[i, j] = 0 ->
  exists z, move_score b c p i j = Some (Fin z).
Proof.
  intros Hwf Hin He. unfold move_score. apply minimax_total; [|unfold search_fuel; lia].
  by apply set_cell_wf.
Qed.

Section Choose.
Context (b : board) (c p : PlayerSymbol).
Hypothesis Hscore : forall i j, In (i, j) row_major -> b.[i, j] = 0 ->
  exists z, move_score b c p i j = Some (Fin z).

(** The scan keeps the best score so far; when it changes the move,
    the new move is strictly better than the start and than every
    empty cell before it. *)
Lemma choose_fold l bs bm :
  (forall y, In y l -> In y row_major) ->
  let r := fold_left (choose_step b c p) l (bs, bm) in
  zle bs r.1 /\
  (forall i j z, In (i, j) l -> b.[i, j] = 0 -> move_score b c p i j = Some (Fin z) ->
     zle (Fin z) r.1) /\
  (r = (bs, bm) \/
   exists l1 i j l2, l = l1 ++ (i, j) :: l2 /\ b.[i, j] = 0 /\
     move_score b c p i j = Some r.1 /\ r.2 = Some (i, j) /\ zinf_lt bs r.1 = true /\
     forall i' j' z', In (i', j') l1 -> b.[i', j'] = 0 ->
       move_score b c p i' j' = Some (Fin z') -> zinf_lt (Fin z') r.1 = true).
Proof.
  induction l as [|[i j] l IH] in bs, bm |- *; intros Hsub.
  { simpl. split_and!; [apply zle_refl|done|by left]. }
  assert (Hl : forall y, In y l -> In y row_major) by (intros; apply Hsub; by right).
  simpl. destruct (b.[i, j] =? 0) eqn:E; zbool.
  2: { destruct (IH bs bm Hl) as (Hbs & Hall & Hwho). split_and!; [done| |].
       - intros i' j' z' [[= <- <-]|Hin] He Hz; [congruence|eauto].
       - destruct Hwho as [Heq|(l1 & i' & j' & l2 & -> & ? & ? & ? & ? & Hpre)]; [by left|].
         right. exists ((i, j) :: l1), i', j', l2. split_and!; try done.
         intros i'' j'' z'' [[= <- <-]|Hin] He Hz; [congruence|eauto]. }
  destruct (Hscore i j (Hsub _ (or_introl eq_refl)) E) as [z Hz]. rewrite Hz.
  destruct (zinf_lt bs (Fin z)) eqn:Hlt.
  - destruct (IH (Fin z) (Some (i, j)) Hl) as (Hbs & Hall & Hwho).
    split_and!; [eauto using zle_trans, zlt_zle| |].
    + intros i' j' z' [[= <- <-]|Hin] He Hz'; [|eauto].
      rewrite Hz in Hz'. injection Hz' as <-. done.
    + right. destruct Hwho as [Heq|(l1 & i' & j' & l2 & -> & ? & ? & ? & ? & Hpre)].
      * rewrite Heq. exists [], i, j, l. simpl. split_and!; try done.
      * exists ((i, j) :: l1), i', j', l2. split_and!; try done.
        { eauto using zlt_le_trans, zlt_zle. }
        intros i'' j'' z'' [[= <- <-]|Hin] He Hz''; [|eauto].
        rewrite Hz in Hz''. injection Hz'' as <-. done.
  - assert (zle (Fin z) bs) as Hzb by done.
    destruct (IH bs bm Hl) as (Hbs & Hall & Hwho). split_and!; [done| |].
    + intros i' j' z' [[= <- <-]|Hin] He Hz'; [|eauto].
      rewrite Hz in Hz'. injection Hz' as <-. eauto using zle_trans.
    + destruct Hwho as [Heq|(l1 & i' & j' & l2 & -> & ? & ? & ? & Hlt' & Hpre)]; [by left|].
      right. exists ((i, j) :: l1), i', j', l2. split_and!; try done.
      intros i'' j'' z'' [[= <- <-]|Hin] He Hz''; [|eauto].
      rewrite Hz in Hz''. injection Hz'' as <-. exact (zle_lt_trans _ _ _ Hzb Hlt').
Qed.
End Choose.

(** On a board with an empty cell the scan always finds a move, an
    empty cell. *)
Lemma choose_move_some b c p :
  board_wf b -> is_board_full b = false ->
  exists i j z, choose_move b c p = (Fin z, Some (i, j)) /\ In (i, j) row_major /\ b.[i, j] = 0.
Proof.
  intros Hwf Hfull. destruct (not_full_has_empty b Hfull) as (i0 & j0 & Hin0 & He0).
  assert (Hs := move_score_total b c p). unfold choose_move.
  destruct (choose_fold b c p (fun i j => Hs i j Hwf) row_major NegInf None (fun y H => H))
    as (_ & Hall & Hwho).
  destruct (Hs i0 j0 Hwf Hin0 He0) as [z0 Hz0].
  destruct (fold_left _ _ _) as [s mv] eqn:Hr. simpl in *.
  destruct Hwho as [[= -> ->]|(l1 & i & j & l2 & Hsplit & He & Hsc & -> & _ & _)].
  { specialize (Hall _ _ _ Hin0 He0 Hz0). done. }
  assert (Hin : In (i, j) row_major) by (rewrite Hsplit; apply in_or_app; simpl; auto).
  destruct (Hs i j Hwf Hin He) as [z Hz]. rewrite Hz in Hsc. injection Hsc as <-.
  exists i, j, z. done.
Qed.

(** C3: on a well-formed board with an empty cell, [_make_computer_move]
    picks an empty cell whose minimax score is the largest of all
    empty cells, and among the cells with that score the first one in
    row-major order: every empty cell scanned before it scores
    strictly less. *)
Theorem choose_move_spec b c p :
  board_wf b -> is_board_full b = false ->
  exists i j z, choose_move b c p = (Fin z, Some (i, j)) /\
    In (i, j) row_major /\ b.[i, j] = 0 /\ move_score b c p i j = Some (Fin z) /\
    (forall i' j' z', In (i', j') row_major -> b.[i', j'] = 0 ->
       move_score b c p i' j' = Some (Fin z') -> z' <= z) /\
    (forall l1 l2, row_major = l1 ++ (i, j) :: l2 ->
       forall i' j' z', In (i', j') l1 -> b.[i', j'] = 0 ->
       move_score b c p i' j' = Some (Fin z') -> z' < z).
Proof.
  intros Hwf Hfull. destruct (not_full_has_empty b Hfull) as (i0 & j0 & Hin0 & He0).
  assert (Hs := move_score_total b c p). unfold choose_move.
  destruct (choose_fold b c p (fun i j => Hs i j Hwf) row_major NegInf None (fun y H => H))
    as (_ & Hall & Hwho).
  destruct (Hs i0 j0 Hwf Hin0 He0) as [z0 Hz0].
  destruct (fold_left _ _ _) as [s mv] eqn:Hr. simpl in *.
  destruct Hwho as [[= -> ->]|(l1 & i & j & l2 & Hsplit & He & Hsc & -> & _ & Hpre)].
  { specialize (Hall _ _ _ Hin0 He0 Hz0). done. }
  assert (Hin : In (i, j) row_major) by (rewrite Hsplit; apply in_or_app; simpl; auto).
  destruct (Hs i j Hwf Hin He) as [z Hz]. rewrite Hz in Hsc. injection Hsc as <-.
  exists i, j, z. split_and!; try done.
  - intros i' j' z' Hin' He' Hz'. apply zle_fin. eauto.
  - intros l1' l2' Hsplit' i' j' z' Hin' He' Hz'.
    assert (l1' = l1) as ->.
    2: { specialize (Hpre _ _ _ Hin' He' Hz'). simpl in Hpre. by apply Z.ltb_lt. }
    rewrite Hsplit in Hsplit'. symmetry. eapply NoDup_split_unique; [|exact Hsplit'].
    rewrite <- Hsplit. apply row_major_NoDup.
Qed.

(** Clients run the search by [vm_compute] only; [simpl] must not unfold it. *)
Arguments minimax : simpl never.
Arguments choose_move : simpl never.

(** Witnesses on the board of the spec's scenario. *)
Definition scenario_board : list (list Z) := [[1;1;0];[2;2;0];[0;0;0]].

Lemma scenario_board_wf : board_wf scenario_board.
Proof. split; [reflexivity|repeat constructor]. Qed.

Lemma choose_move_spec_witness :
  board_wf scenario_board /\ is_board_full scenario_board = false /\
  exists i j z, choose_move scenario_board PlayerSymbol.O PlayerSymbol.X = (Fin z, Some (i, j)).
Proof.
  assert (Hf : is_board_full scenario_board = false) by (vm_compute; reflexivity).
  split; [exact scenario_board_wf|]. split; [exact Hf|].
  destruct (choose_move_spec scenario_board PlayerSymbol.O PlayerSymbol.X scenario_board_wf Hf)
    as (i & j & z & H & _).
  exists i, j, z. exact H.
Defined.

Lemma minimax_total_witness :
  board_wf scenario_board /\ (count_empty scenario_board < 6)%nat /\
  exists z, minimax 6 scenario_board 0 true PlayerSymbol.O PlayerSymbol.X = Some (Fin z).
Proof.
  assert (Hc : (count_empty scenario_board < 6)%nat) by (vm_compute; lia).
  split; [exact scenario_board_wf|]. split; [exact Hc|].
  exact (minimax_total 6 scenario_board 0 true PlayerSymbol.O PlayerSymbol.X scenario_board_wf Hc).
Defined.

(** The spec's scenario: O (the computer) completes its row at (1, 2). *)
Lemma minimax_immediate_win_witness :
  check_winner_symbol (set_cell scenario_board 1 2 (value PlayerSymbol.O)) = Some (value PlayerSymbol.O) /\
  minimax 6 scenario_board 0 true PlayerSymbol.O PlayerSymbol.X = Some (Fin (9 - 0)).
Proof.
  assert (Hw : check_winner_symbol (set_cell scenario_board 1 2 (value PlayerSymbol.O))
               = Some (value PlayerSymbol.O)) by (vm_compute; reflexivity).
  split; [exact Hw|].
  refine (proj1 (minimax_immediate_win 6 scenario_board 0 PlayerSymbol.O PlayerSymbol.X 1 2
            scenario_board_wf _ _ _ _ _ _) Hw);
    [vm_compute; lia|change (count_empty scenario_board) with 5%nat; lia|discriminate|vm_compute; reflexivity
    |apply in_row_major; lia|vm_compute; reflexivity].
Defined.
