(* ===== verification/Game.v ===== *)
(** * The game record and its state machine

    Models [src/src/domain/model/current_game.py], [game_state.py], the
    game type enum (imported as [domain/model/game_type.py], a file that
    is not among the sources: modelled from the spec, "pvp" / "pvc"),
    and the state-changing logic of [game_service_impl.py] without
    persistence: the game created by [create_game], the checks and
    updates of [join_game] and [make_move], [_update_game_state], and
    the board update of [_make_computer_move].  [Service.v] adds the
    store and shows that the persisted operations compute the same
    games ([Service.make_move_refines]). *)

From Stdlib Require Import ZArith Lia String.
From stdpp Require Import base list option decidable relations.
From S2P Require Import Prelude Board Minimax.

Local Open Scope Z_scope.
Local Open Scope ttt_scope.

(** A [uuid.UUID]: only compared for equality. *)
Abbreviation uuid := N.

Module GameState.
Inductive t := WAITING_FOR_PLAYER | PLAYER_TURN | DRAW | PLAYER_WON.

#[global] Instance eq_dec : EqDecision t.
Proof. solve_decision. Defined.

Definition value (s : t) : string :=
  match s with
  | WAITING_FOR_PLAYER => "waiting_for_player"
  | PLAYER_TURN => "player_turn"
  | DRAW => "draw"
  | PLAYER_WON => "player_won"
  end.

(** [GameState(v)]: the member with that value, or a [ValueError]. *)
Definition from_value (v : string) : option t :=
  List.find (fun s => String.eqb (value s) v)
    [WAITING_FOR_PLAYER; PLAYER_TURN; DRAW; PLAYER_WON].
End GameState.

Module GameType.
Inductive t := PVP | PVC.

#[global] Instance eq_dec : EqDecision t.
Proof. solve_decision. Defined.

Definition value (s : t) : string :=
  match s with PVP => "pvp" | PVC => "pvc" end.

Definition from_value (v : string) : option t :=
  List.find (fun s => String.eqb (value s) v) [PVP; PVC].
End GameType.

(** The errors the service raises, one per [raise ValueError(...)]. *)
Inductive GameError :=
  | GameNotFound            (* "Game with ID ... not found" *)
  | NotAvailableForJoining  (* "Game is not available for joining" *)
  | OnlyPvpCanBeJoined      (* "Only PvP games can be joined" *)
  | CannotJoinOwnGame       (* "Cannot join your own game" *)
  | GameAlreadyOver         (* "Game is already over" *)
  | NotYourTurn             (* "Not your turn" *)
  | InvalidBoardFormat      (* "Invalid board format" *)
  | LimitTooSmall           (* "Limit must be greater than 0" *)
  | LimitTooLarge           (* "Limit must not exceed 100" *)
  | InvalidStoredValue.     (* [GameState(v)] / [GameType(v)] on a value
                               that is no member: the enum's ValueError *)

#[export] Instance GameError_eq_dec : EqDecision GameError.
Proof. solve_decision. Defined.

(** ** [CurrentGame] *)

Record CurrentGame := mkGame {
  game_id : uuid;
  game_field : list (list Z);
  game_type : GameType.t;
  game_state : GameState.t;
  player1_id : uuid;
  player2_id : option uuid;
  player1_symbol : PlayerSymbol;
  player2_symbol : PlayerSymbol;
  current_player_id : option uuid;
  winner_id : option uuid;
  created_at : Z
}.

(** Attribute assignments [game.x = v]. *)
Definition set_game_field (g : CurrentGame) (b : list (list Z)) : CurrentGame :=
  mkGame (game_id g) b (game_type g) (game_state g) (player1_id g) (player2_id g)
    (player1_symbol g) (player2_symbol g) (current_player_id g) (winner_id g) (created_at g).
Definition set_game_state (g : CurrentGame) (s : GameState.t) : CurrentGame :=
  mkGame (game_id g) (game_field g) (game_type g) s (player1_id g) (player2_id g)
    (player1_symbol g) (player2_symbol g) (current_player_id g) (winner_id g) (created_at g).
Definition set_player2_id (g : CurrentGame) (p : option uuid) : CurrentGame :=
  mkGame (game_id g) (game_field g) (game_type g) (game_state g) (player1_id g) p
    (player1_symbol g) (player2_symbol g) (current_player_id g) (winner_id g) (created_at g).
Definition set_current_player_id (g : CurrentGame) (p : option uuid) : CurrentGame :=
  mkGame (game_id g) (game_field g) (game_type g) (game_state g) (player1_id g) (player2_id g)
    (player1_symbol g) (player2_symbol g) p (winner_id g) (created_at g).
Definition set_winner_id (g : CurrentGame) (p : option uuid) : CurrentGame :=
  mkGame (game_id g) (game_field g) (game_type g) (game_state g) (player1_id g) (player2_id g)
    (player1_symbol g) (player2_symbol g) (current_player_id g) p (created_at g).

Definition is_player_turn (g : CurrentGame) (player_id : uuid) : bool :=
  bool_decide (game_state g = GameState.PLAYER_TURN) && bool_decide (current_player_id g = Some player_id).

Definition is_game_over (g : CurrentGame) : bool :=
  bool_decide (game_state g = GameState.DRAW) || bool_decide (game_state g = GameState.PLAYER_WON).

Definition get_opponent_id (g : CurrentGame) (player_id : uuid) : option uuid :=
  if bool_decide (player_id = player1_id g) then player2_id g
  else if bool_decide (Some player_id = player2_id g) then Some (player1_id g)
  else None.

Definition get_player_symbol (g : CurrentGame) (player_id : uuid) : option PlayerSymbol :=
  if bool_decide (player_id = player1_id g) then Some (player1_symbol g)
  else if bool_decide (Some player_id = player2_id g) then Some (player2_symbol g)
  else None.

(** ** [_update_game_state] (lines 203-220) *)

Definition update_game_state (g : CurrentGame) : CurrentGame :=
  match check_winner_symbol (game_field g) with
  | Some winner_symbol =>
      let g :=
        if winner_symbol =? value (player1_symbol g) then set_winner_id g (Some (player1_id g))
        else if winner_symbol =? value (player2_symbol g) then
          if bool_decide (game_type g = GameType.PVP) then set_winner_id g (player2_id g)
          else set_winner_id g None
        else g in
      set_current_player_id (set_game_state g GameState.PLAYER_WON) None
  | None =>
      if is_board_full (game_field g) then
        set_winner_id (set_current_player_id (set_game_state g GameState.DRAW) None) None
      else g
  end.

(** ** The three operations, without the store *)

(** [create_game] (lines 21-54): [game_id] is the fresh [uuid4()] and
    [created_at] the [datetime.utcnow()] of the dataclass default. *)
Definition new_game (game_id : uuid) (player_id : uuid) (game_type : GameType.t)
    (created_at : Z) : CurrentGame :=
  match game_type with
  | GameType.PVP => mkGame game_id [[0;0;0];[0;0;0];[0;0;0]] GameType.PVP GameState.WAITING_FOR_PLAYER player_id None
             PlayerSymbol.X PlayerSymbol.O None None created_at
  | GameType.PVC => mkGame game_id [[0;0;0];[0;0;0];[0;0;0]] GameType.PVC GameState.PLAYER_TURN player_id None
             PlayerSymbol.X PlayerSymbol.O (Some player_id) None created_at
  end.

(** The checks and updates of [join_game] (lines 68-79). *)
Definition join (g : CurrentGame) (player_id : uuid) : GameError + CurrentGame :=
  if negb (bool_decide (game_state g = GameState.WAITING_FOR_PLAYER)) then inl NotAvailableForJoining
  else if negb (bool_decide (game_type g = GameType.PVP)) then inl OnlyPvpCanBeJoined
  else if bool_decide (player1_id g = player_id) then inl CannotJoinOwnGame
  else inr (set_current_player_id
              (set_game_state (set_player2_id g (Some player_id)) GameState.PLAYER_TURN)
              (Some (player1_id g))).

(** The checks of [make_move] (lines 96-103), in their order. *)
Definition check_move (g : CurrentGame) (player_id : uuid) (board : list (list Z))
    : option GameError :=
  if is_game_over g then Some GameAlreadyOver
  else if negb (is_player_turn g player_id) then Some NotYourTurn
  else if negb (board_format_ok board) then Some InvalidBoardFormat
  else None.

(** The human move: [game.game_field = GameField(board=board)] then
    [_update_game_state] (lines 105-107). *)
Definition apply_board (g : CurrentGame) (board : list (list Z)) : CurrentGame :=
  update_game_state (set_game_field g (GameField.init board)).

(** The state change of [_make_computer_move] (lines 124-153) when a
    move is found; [None] is the [if best_move:] test failing. *)
Definition computer_move (g : CurrentGame) : option CurrentGame :=
  let board := game_field g in
  match (choose_move board (player2_symbol g) (player1_symbol g)).2 with
  | Some (i, j) =>
      let g := update_game_state
                 (set_game_field g (set_cell board i j (value (player2_symbol g)))) in
      Some (if negb (is_game_over g) then set_current_player_id g (Some (player1_id g)) else g)
  | None => None
  end.

Arguments computer_move : simpl never.

(** [make_move] without the store: the human move, then the computer's
    reply in a PvC game or the turn passing in a PvP game. *)
Definition play (g : CurrentGame) (player_id : uuid) (board : list (list Z))
    : GameError + CurrentGame :=
  match check_move g player_id board with
  | Some e => inl e
  | None =>
      let g := apply_board g board in
      let g := if negb (is_game_over g) && bool_decide (game_type g = GameType.PVC) then
                 default g (computer_move g) else g in
      let g := if negb (is_game_over g) && bool_decide (game_type g = GameType.PVP) then
                 set_current_player_id g (get_opponent_id g player_id) else g in
      inr g
  end.

(** ** The state machine *)

(** One transition of a stored game: a successful join or move. *)
Inductive game_step : CurrentGame -> CurrentGame -> Prop :=
  | step_join g player_id g' :
      join g player_id = inr g' -> game_step g g'
  | step_play g player_id board g' :
      play g player_id board = inr g' -> game_step g g'.

Definition reachable (g : CurrentGame) : Prop :=
  exists gid pid ty t, rtc game_step (new_game gid pid ty t) g.

(** The invariant of every stored game. *)
Definition game_inv (g : CurrentGame) : Prop :=
  board_wf (game_field g) /\
  player1_symbol g = PlayerSymbol.X /\ player2_symbol g = PlayerSymbol.O /\
  (winner_id g = None \/ winner_id g = Some (player1_id g) \/ winner_id g = player2_id g) /\
  match game_type g with
  | GameType.PVC =>
      player2_id g = None /\ game_state g <> GameState.WAITING_FOR_PLAYER
  | GameType.PVP =>
      (game_state g = GameState.WAITING_FOR_PLAYER <-> player2_id g = None) /\
      player2_id g <> Some (player1_id g)
  end /\
  match game_state g with
  | GameState.WAITING_FOR_PLAYER => current_player_id g = None /\ winner_id g = None
  | GameState.PLAYER_TURN =>
      winner_id g = None /\
      (current_player_id g = Some (player1_id g) \/
       (game_type g = GameType.PVP /\ current_player_id g = player2_id g))
  | GameState.DRAW => current_player_id g = None /\ winner_id g = None
  | GameState.PLAYER_WON => current_player_id g = None
  end.

(** [game_simpl]: expose the fields of a game built by the setters. *)
Ltac game_simpl :=
  unfold set_game_field, set_game_state, set_player2_id, set_current_player_id,
    set_winner_id in *; simpl in *.

Lemma default_board_wf : board_wf [[0;0;0];[0;0;0];[0;0;0]].
Proof. split; [done|]. repeat constructor. Qed.

Lemma new_game_inv gid pid ty t : game_inv (new_game gid pid ty t).
Proof. pose proof default_board_wf. destruct ty; cbv [new_game game_inv]; simpl; naive_solver. Qed.

Lemma join_inv g pid g' : game_inv g -> join g pid = inr g' -> game_inv g'.
Proof.
  unfold join. intros Hinv H.
  repeat case_bool_decide; simpl in H; try discriminate. injection H as <-.
  destruct g as [? ? [] [] ? ? ? ? ? ? ?]; unfold game_inv in *; game_simpl; try done.
  naive_solver.
Qed.

(** [_update_game_state] on a game in play keeps the invariant. *)
Lemma update_game_state_inv g b :
  game_inv g -> game_state g = GameState.PLAYER_TURN -> board_wf b ->
  game_inv (update_game_state (set_game_field g b)).
Proof.
  intros Hinv Hs Hb.
  destruct g as [gid f ty st p1 p2 s1 s2 cur win t]; unfold game_inv in *; simpl in *; subst st.
  destruct Hinv as (_ & -> & -> & _ & Hty & Hwin & Hcur).
  unfold update_game_state. game_simpl.
  destruct (check_winner_symbol b) as [w|].
  - case_ifs; repeat case_bool_decide; game_simpl; destruct ty; naive_solver.
  - destruct (is_board_full b); game_simpl; destruct ty; naive_solver.
Qed.

(** [_update_game_state] writes only the state, the current player and
    the winner. *)
Lemma update_game_state_fields g :
  let g' := update_game_state g in
  game_id g' = game_id g /\ game_field g' = game_field g /\ game_type g' = game_type g /\
  player1_id g' = player1_id g /\ player2_id g' = player2_id g /\
  player1_symbol g' = player1_symbol g /\ player2_symbol g' = player2_symbol g /\
  created_at g' = created_at g.
Proof.
  unfold update_game_state. destruct (check_winner_symbol _); [|destruct (is_board_full _)];
    [case_ifs; repeat case_bool_decide| |]; game_simpl; done.
Qed.

(** ... and the state it writes is a final one, unless no line is
    complete and the board is not full. *)
Lemma update_game_state_state g :
  game_state (update_game_state g) = game_state g \/
  game_state (update_game_state g) = GameState.DRAW \/
  game_state (update_game_state g) = GameState.PLAYER_WON.
Proof.
  unfold update_game_state. destruct (check_winner_symbol _); [|destruct (is_board_full _)];
    [case_ifs; repeat case_bool_decide| |]; game_simpl; auto.
Qed.

Lemma in_play_not_over g :
  is_game_over g = false -> game_state g = GameState.PLAYER_TURN \/
                            game_state g = GameState.WAITING_FOR_PLAYER.
Proof. unfold is_game_over. intros H. destruct (game_state g); auto; cbv in H; discriminate. Qed.

(** A game in play stays in play after a move that does not end it. *)
Lemma update_game_state_in_play g b :
  game_state g = GameState.PLAYER_TURN ->
  is_game_over (update_game_state (set_game_field g b)) = false ->
  game_state (update_game_state (set_game_field g b)) = GameState.PLAYER_TURN.
Proof.
  intros Hs Hno. destruct (update_game_state_state (set_game_field g b)) as [->|[Hd|Hw]].
  - by game_simpl.
  - unfold is_game_over in Hno. rewrite Hd in Hno. done.
  - unfold is_game_over in Hno. rewrite Hw in Hno. done.
Qed.

Lemma set_current_inv g p :
  game_inv g -> game_state g = GameState.PLAYER_TURN ->
  p = Some (player1_id g) \/ (game_type g = GameType.PVP /\ p = player2_id g) ->
  game_inv (set_current_player_id g p).
Proof.
  intros Hinv Hs Hp. destruct g as [? ? ty st ? ? ? ? ? ? ?]; unfold game_inv in *; game_simpl.
  subst st. destruct ty; naive_solver.
Qed.

Lemma computer_move_inv g g' :
  game_inv g -> game_state g = GameState.PLAYER_TURN ->
  computer_move g = Some g' -> game_inv g'.
Proof.
  intros Hinv Hs. unfold computer_move.
  destruct (choose_move _ _ _).2 as [[i j]|]; [|done]. intros [= <-].
  assert (Hwf : board_wf (set_cell (game_field g) i j (value (player2_symbol g)))).
  { apply set_cell_wf. apply Hinv. }
  pose proof (update_game_state_inv g _ Hinv Hs Hwf) as Hinv'.
  destruct (is_game_over _) eqn:Hover; simpl; [done|].
  apply set_current_inv; [done|by apply update_game_state_in_play|].
  left. f_equal; symmetry; apply update_game_state_fields.
Qed.

Lemma is_player_turn_true g pid :
  is_player_turn g pid = true ->
  game_state g = GameState.PLAYER_TURN /\ current_player_id g = Some pid.
Proof. unfold is_player_turn. rewrite andb_true_iff, !bool_decide_eq_true. done. Qed.

Lemma board_format_ok_init b :
  board_format_ok b = true -> GameField.init b = b /\ board_wf b.
Proof.
  intros H. split; [|by apply board_format_ok_wf]. destruct b; [done|reflexivity].
Qed.

(** Passing the turn in a PvP game keeps the invariant. *)
Lemma pass_turn_inv g pid :
  game_inv g -> game_state g = GameState.PLAYER_TURN -> game_type g = GameType.PVP ->
  (Some pid = Some (player1_id g) \/ Some pid = player2_id g) ->
  game_inv (set_current_player_id g (get_opponent_id g pid)).
Proof.
  intros Hinv Hs Hty Hpid. apply set_current_inv; [done|done|]. unfold get_opponent_id.
  case_bool_decide as H1; [by right|]. case_bool_decide as H2; [by left|].
  exfalso. destruct Hpid as [[= ?]|?]; congruence.
Qed.

Lemma computer_move_type g g' : computer_move g = Some g' -> game_type g' = game_type g.
Proof.
  unfold computer_move. destruct (choose_move _ _ _).2 as [[i j]|]; [|done]. intros [= <-].
  destruct (update_game_state_fields (set_game_field g (set_cell (game_field g) i j
              (value (player2_symbol g))))) as (_ & _ & Hty & _).
  destruct (is_game_over _); simpl; by rewrite Hty.
Qed.

Lemma play_inv g pid b g' : game_inv g -> play g pid b = inr g' -> game_inv g'.
Proof.
  unfold play, check_move. intros Hinv.
  destruct (is_game_over g) eqn:Hover; [done|].
  destruct (is_player_turn g pid) eqn:Hturn; [|done].
  destruct (board_format_ok b) eqn:Hfmt; [|done]. cbn [negb andb]. intros H%(inj inr). subst g'.
  apply is_player_turn_true in Hturn as [Hs Hcur].
  apply board_format_ok_init in Hfmt as [Hinit Hwf].
  unfold apply_board. rewrite Hinit.
  pose proof (update_game_state_inv g b Hinv Hs Hwf) as Hinv1.
  destruct (update_game_state_fields (set_game_field g b)) as (_ & _ & Hty & Hp1 & Hp2 & _).
  set (g1 := update_game_state (set_game_field g b)) in *.
  destruct (is_game_over g1) eqn:Hover1; [simpl; by rewrite Hover1|].
  pose proof (update_game_state_in_play g b Hs Hover1) as Hs1. fold g1 in Hs1.
  simpl in Hty, Hp1, Hp2. destruct (game_type g) eqn:Htyg.
  - rewrite Hty, (bool_decide_eq_false_2 (GameType.PVP = GameType.PVC)) by done. cbn [negb andb].
    rewrite ?Hover1, Hty, (bool_decide_eq_true_2 (GameType.PVP = GameType.PVP)) by done.
    apply pass_turn_inv; try done. rewrite Hp1, Hp2, <- Hcur.
    destruct Hinv as (_ & _ & _ & _ & _ & Hst). rewrite Hs in Hst. naive_solver.
  - rewrite Hty, (bool_decide_eq_true_2 (GameType.PVC = GameType.PVC)) by done. cbn [negb andb].
    assert (Hinv2 : game_inv (default g1 (computer_move g1))).
    { destruct (computer_move g1) as [g2|] eqn:Hcm; simpl; [|done].
      eapply computer_move_inv; eauto. }
    assert (Hty2 : game_type (default g1 (computer_move g1)) = GameType.PVC).
    { destruct (computer_move g1) as [g2|] eqn:Hcm; simpl; [|done].
      by rewrite (computer_move_type _ _ Hcm). }
    rewrite Hty2, (bool_decide_eq_false_2 (GameType.PVC = GameType.PVP)) by done.
    by rewrite andb_false_r.
Qed.

(** A game left in play by [_update_game_state] has an empty cell. *)
Lemma update_game_state_not_full g :
  is_game_over (update_game_state g) = false -> is_board_full (game_field g) = false.
Proof.
  unfold update_game_state. destruct (check_winner_symbol _).
  - by case_ifs; repeat case_bool_decide; game_simpl.
  - destruct (is_board_full _); [by game_simpl|done].
Qed.

(** On a board with an empty cell the computer always answers: its mark
    goes on an empty cell, and unless that ends the game it is the
    creator's turn. *)
Lemma computer_move_reply g :
  board_wf (game_field g) -> is_board_full (game_field g) = false ->
  exists i j g', computer_move g = Some g' /\ In (i, j) row_major /\ (game_field g).[i, j] = 0 /\
    game_field g' = set_cell (game_field g) i j (value (player2_symbol g)) /\
    game_type g' = game_type g /\
    (is_game_over g' = true \/ current_player_id g' = Some (player1_id g)).
Proof.
  intros Hwf Hfull.
  destruct (choose_move_some (game_field g) (player2_symbol g) (player1_symbol g) Hwf Hfull)
    as (i & j & z & Hc & Hin & He).
  unfold computer_move. rewrite Hc. simpl.
  set (g1 := update_game_state (set_game_field g (set_cell (game_field g) i j
               (value (player2_symbol g))))).
  destruct (update_game_state_fields (set_game_field g (set_cell (game_field g) i j
              (value (player2_symbol g))))) as (_ & Hf & Hty & Hp1 & _).
  fold g1 in Hf, Hty, Hp1.
  eexists i, j, _. split; [reflexivity|]. split_and!; [done|done| | |].
  - destruct (is_game_over g1); simpl; done.
  - destruct (is_game_over g1); simpl; done.
  - destruct (is_game_over g1) eqn:Ho; simpl; [by left|right]. by rewrite Hp1.
Qed.

(** C24: in a PvC game the computer never skips its turn.  After a move
    [make_move] accepts, either the game is over, or the computer has
    put an O on an empty cell of the submitted board and it is the
    creator's turn again. *)
Theorem pvc_computer_replies g pid b g' :
  game_inv g -> game_type g = GameType.PVC -> play g pid b = inr g' ->
  is_game_over g' = true \/
  (current_player_id g' = Some (player1_id g) /\
   exists i j, In (i, j) row_major /\ b.[i, j] = 0 /\
     game_field g' = set_cell b i j (value PlayerSymbol.O)).
Proof.
  intros Hinv Hpvc. unfold play, check_move.
  destruct (is_game_over g) eqn:Hover; [done|].
  destruct (is_player_turn g pid) eqn:Hturn; [|done].
  destruct (board_format_ok b) eqn:Hfmt; [|done]. cbn [negb andb]. intros H%(inj inr). subst g'.
  apply board_format_ok_init in Hfmt as [Hinit Hwf].
  unfold apply_board. rewrite Hinit.
  destruct (update_game_state_fields (set_game_field g b)) as (_ & Hf & Hty & Hp1 & _ & _ & Hs2 & _).
  set (g1 := update_game_state (set_game_field g b)) in *. simpl in Hf, Hty, Hp1, Hs2.
  destruct (is_game_over g1) eqn:Hover1; [left; simpl; by rewrite Hover1|].
  rewrite Hty, Hpvc, (bool_decide_eq_true_2 (GameType.PVC = GameType.PVC)) by done.
  cbn [negb andb].
  assert (Hfull : is_board_full (game_field g1) = false).
  { rewrite Hf. apply (update_game_state_not_full (set_game_field g b)). exact Hover1. }
  rewrite <- Hf in Hwf.
  destruct (computer_move_reply g1 Hwf Hfull) as (i & j & g2 & Hcm & Hin & He & Hf2 & Hty2 & Hcase).
  rewrite Hcm. simpl. rewrite Hty2, Hty, Hpvc, andb_false_r.
  destruct Hcase as [Ho|Hcur]; [by left|right].
  rewrite Hp1 in Hcur. split; [done|]. exists i, j. rewrite Hf in He, Hf2.
  destruct Hinv as (_ & _ & Ho & _). rewrite Hs2, Ho in Hf2. auto.
Qed.

Lemma step_inv g g' : game_inv g -> game_step g g' -> game_inv g'.
Proof.
  intros Hinv Hs. destruct Hs as [? ? ? H|? ? ? ? H];
    [eapply join_inv | eapply play_inv]; eauto.
Qed.

Lemma rtc_step_inv g g' : rtc game_step g g' -> game_inv g -> game_inv g'.
Proof. induction 1; eauto using step_inv. Qed.

(** C1: every game reachable from [create_game] by joins and moves keeps
    its 3x3 board, its symbols X for the creator and O for the second
    slot, a winner that is one of its players (never the computer of a
    PvC game), a PvC game without second player, and a state consistent
    with the current player: nobody's turn while waiting or after the
    end, the creator's or (PvP) the second player's turn in play. *)
Theorem reachable_game_inv g : reachable g -> game_inv g.
Proof.
  intros (gid & pid & ty & t & Hsteps).
  eapply rtc_step_inv; [exact Hsteps|apply new_game_inv].
Qed.

(** C5: a finished game (draw or win) accepts neither a join nor a move:
    the terminal states are never left. *)
Theorem game_over_no_step g g' : is_game_over g = true -> ~ game_step g g'.
Proof.
  intros Hover Hs. destruct Hs as [? pid ? H|? pid b ? H].
  - unfold join in H. unfold is_game_over in Hover.
    rewrite (bool_decide_eq_false_2 (game_state g = GameState.WAITING_FOR_PLAYER)) in H;
      [done|]. intros Hw. rewrite Hw in Hover. done.
  - unfold play, check_move in H. by rewrite Hover in H.
Qed.

Lemma game_over_no_step_witness :
  is_game_over (set_game_state (new_game 1 7 GameType.PVC 0) GameState.DRAW) = true /\
  ~ game_step (set_game_state (new_game 1 7 GameType.PVC 0) GameState.DRAW)
              (new_game 1 7 GameType.PVC 0).
Proof.
  assert (H : is_game_over (set_game_state (new_game 1 7 GameType.PVC 0) GameState.DRAW) = true)
    by reflexivity.
  split; [exact H|exact (game_over_no_step _ _ H)].
Defined.

(** A complete line of the non-empty value [w] and of no other. *)
Definition only_line (b : board) (w : Z) : Prop :=
  w <> 0 /\ has_line b w /\ forall v, v <> 0 -> v <> w -> ~ has_line b v.

(** A decision procedure for [only_line], by the values of the eight
    lines. *)
Definition only_line_b (b : board) (w : Z) : bool :=
  negb (w =? 0) &&
  existsb (fun t => bool_decide (line_value b t = Some w)) win_lines &&
  forallb (fun t => match line_value b t with Some v => v =? w | None => true end) win_lines.

Lemma only_line_b_sound b w : only_line_b b w = true -> only_line b w.
Proof.
  unfold only_line_b. rewrite !andb_true_iff, negb_true_iff, Z.eqb_neq, existsb_exists, forallb_forall.
  intros [[Hw (t & Hin & Ht%bool_decide_eq_true)] Hall]. split_and!; [done|by apply has_line_win_lines; eauto|].
  intros v Hv Hvw (t' & Hin' & Ht')%has_line_win_lines; [|done].
  specialize (Hall t' Hin'). rewrite Ht' in Hall. by apply Z.eqb_eq in Hall.
Qed.

Lemma check_winner_only_line b w :
  only_line b w -> check_winner_symbol b = Some w.
Proof.
  intros (Hw & Hl & Hno). destruct (check_winner_symbol_spec b) as [Hsome Hnone].
  destruct (check_winner_symbol b) as [w'|] eqn:E.
  - destruct (Hsome w' eq_refl) as [Hw' Hl']. destruct (decide (w' = w)) as [->|Hne]; [done|].
    by destruct (Hno w' Hw' Hne).
  - exfalso. by apply (proj1 Hnone eq_refl w).
Qed.

(** C4: [_update_game_state] against the lines of the board: a line of
    the creator's X (and of nothing else) makes the creator the winner;
    a line of O makes the second player the winner in a PvP game and
    leaves the winner empty in a PvC game (the computer has no id); a
    full board without a line is a draw; otherwise nothing changes.
    Every finished game has no current player. *)
Theorem update_game_state_outcome g :
  player1_symbol g = PlayerSymbol.X -> player2_symbol g = PlayerSymbol.O ->
  let b := game_field g in
  let g' := update_game_state g in
  (only_line b 1 ->
     game_state g' = GameState.PLAYER_WON /\ current_player_id g' = None /\
     winner_id g' = Some (player1_id g)) /\
  (only_line b 2 ->
     game_state g' = GameState.PLAYER_WON /\ current_player_id g' = None /\
     winner_id g' = match game_type g with
                    | GameType.PVP => player2_id g
                    | GameType.PVC => None
                    end) /\
  ((forall v, v <> 0 -> ~ has_line b v) ->
     (is_board_full b = true ->
        game_state g' = GameState.DRAW /\ current_player_id g' = None /\ winner_id g' = None) /\
     (is_board_full b = false -> g' = g)).
Proof.
  intros H1 H2 b g'. subst b g'. unfold update_game_state. rewrite H1, H2.
  split_and!.
  - intros Hl. rewrite (check_winner_only_line _ _ Hl). game_simpl. done.
  - intros Hl. rewrite (check_winner_only_line _ _ Hl). game_simpl.
    destruct (game_type g); game_simpl; done.
  - intros Hno. destruct (check_winner_symbol_spec (game_field g)) as [_ Hnone].
    rewrite (proj2 Hnone Hno). split; intros ->; [game_simpl|]; done.
Qed.

(** The game in the witnesses below: a PvC game of player 7 whose
    board holds a row of X. *)
Definition row_of_x : list (list Z) := [[1;1;1];[2;2;0];[0;0;0]].

Lemma update_game_state_outcome_witness :
  player1_symbol (set_game_field (new_game 1 7 GameType.PVC 0) row_of_x) = PlayerSymbol.X /\
  player2_symbol (set_game_field (new_game 1 7 GameType.PVC 0) row_of_x) = PlayerSymbol.O /\
  only_line row_of_x 1 /\
  winner_id (update_game_state (set_game_field (new_game 1 7 GameType.PVC 0) row_of_x))
    = Some 7%N.
Proof.
  assert (Hl : only_line row_of_x 1) by (apply only_line_b_sound; vm_compute; reflexivity).
  split; [reflexivity|]. split; [reflexivity|]. split; [exact Hl|].
  apply (update_game_state_outcome (set_game_field (new_game 1 7 GameType.PVC 0) row_of_x));
    [reflexivity|reflexivity|exact Hl].
Defined.

(** A joined PvP game: player 7 created it, player 8 joined. *)
Definition joined_game : CurrentGame :=
  set_current_player_id
    (set_game_state (set_player2_id (new_game 1 7 GameType.PVP 0) (Some 8%N))
       GameState.PLAYER_TURN) (Some 7%N).

Lemma reachable_game_inv_witness : reachable joined_game /\ game_inv joined_game.
Proof.
  assert (H : reachable joined_game).
  { exists 1%N, 7%N, GameType.PVP, 0.
    eapply rtc_l; [apply (step_join _ 8%N); reflexivity|apply rtc_refl]. }
  split; [exact H|exact (reachable_game_inv joined_game H)].
Defined.

(** A line of X (and of nothing else) ends the game with the creator
    as winner. *)
Lemma update_game_state_x_line g :
  player1_symbol g = PlayerSymbol.X -> only_line (game_field g) 1 ->
  update_game_state g =
  set_current_player_id (set_game_state (set_winner_id g (Some (player1_id g)))
                           GameState.PLAYER_WON) None.
Proof.
  intros Hx Hl. unfold update_game_state. rewrite (check_winner_only_line _ _ Hl), Hx.
  reflexivity.
Qed.

(** C9: [make_move] trusts the submitted board.  Whatever the game's
    board holds, the player whose turn it is may submit any 3x3 board
    with a line of X: the service accepts it as the new board and ends
    the game with the creator as winner.  Nothing relates the submitted
    board to the previous one (one new mark, of the mover's symbol, on
    an empty cell). *)
Theorem play_accepts_forged_board g pid b :
  game_inv g -> is_player_turn g pid = true -> board_format_ok b = true ->
  only_line b 1 ->
  exists g', play g pid b = inr g' /\ game_field g' = b /\
             game_state g' = GameState.PLAYER_WON /\ winner_id g' = Some (player1_id g).
Proof.
  intros (_ & Hx & _) Hturn Hfmt Hl.
  destruct (is_player_turn_true g pid Hturn) as [Hst _].
  destruct (board_format_ok_init b Hfmt) as [Hinit _].
  unfold play, check_move, apply_board. rewrite Hturn, Hfmt, Hinit.
  assert (Hover : is_game_over g = false) by (unfold is_game_over; rewrite Hst; done).
  rewrite Hover. cbn [negb].
  rewrite update_game_state_x_line by done. eexists. split; [reflexivity|]. game_simpl. auto.
Qed.

(** Three X submitted as the first move of a fresh PvC game. *)
Definition forged_row : board := [[1;1;1];[0;0;0];[0;0;0]].

Lemma play_accepts_forged_board_witness :
  game_inv (new_game 1 7 GameType.PVC 0) /\ is_player_turn (new_game 1 7 GameType.PVC 0) 7 = true /\
  board_format_ok forged_row = true /\ only_line forged_row 1 /\
  exists g', play (new_game 1 7 GameType.PVC 0) 7 forged_row = inr g' /\
    game_field g' = forged_row /\ game_state g' = GameState.PLAYER_WON /\ winner_id g' = Some 7%N.
Proof.
  assert (H1 := new_game_inv 1 7 GameType.PVC 0).
  assert (H2 : is_player_turn (new_game 1 7 GameType.PVC 0) 7 = true) by reflexivity.
  assert (H3 : board_format_ok forged_row = true) by reflexivity.
  assert (H4 : only_line forged_row 1) by (apply only_line_b_sound; vm_compute; reflexivity).
  split_and!; [exact H1|exact H2|exact H3|exact H4|].
  exact (play_accepts_forged_board _ 7 forged_row H1 H2 H3 H4).
Defined.

(** The creator of a fresh PvC game takes the centre. *)
Definition center_board : board := [[0;0;0];[0;1;0];[0;0;0]].

Lemma pvc_computer_replies_witness :
  game_inv (new_game 1 7 GameType.PVC 0) /\ game_type (new_game 1 7 GameType.PVC 0) = GameType.PVC /\
  exists g', play (new_game 1 7 GameType.PVC 0) 7 center_board = inr g' /\
    (is_game_over g' = true \/
     (current_player_id g' = Some (player1_id (new_game 1 7 GameType.PVC 0)) /\
      exists i j, In (i, j) row_major /\ center_board.[i, j] = 0 /\
        game_field g' = set_cell center_board i j (value PlayerSymbol.O))).
Proof.
  assert (H1 := new_game_inv 1 7 GameType.PVC 0).
  assert (H2 : game_type (new_game 1 7 GameType.PVC 0) = GameType.PVC) by reflexivity.
  split; [exact H1|]. split; [exact H2|].
  destruct (play (new_game 1 7 GameType.PVC 0) 7 center_board) as [e|g'] eqn:E.
  - vm_compute in E. discriminate.
  - exists g'. split; [reflexivity|]. exact (pvc_computer_replies _ _ _ _ H1 H2 E).
Defined.

(** ** Identity of the stored row

    The operations never change a game's id or creation time, and never
    leave it with the empty list as board. *)
Definition same_row (g g' : CurrentGame) : Prop :=
  game_id g' = game_id g /\ created_at g' = created_at g /\ game_field g' <> [].

Lemma apply_board_same_row g b : same_row g (apply_board g b).
Proof.
  unfold same_row, apply_board.
  destruct (update_game_state_fields (set_game_field g (GameField.init b)))
    as (-> & -> & _ & _ & _ & _ & _ & ->). game_simpl. split_and!; [done|done|].
  destruct b; simpl; discriminate.
Qed.

Lemma computer_move_same_row g g' :
  game_field g <> [] -> computer_move g = Some g' -> same_row g g'.
Proof.
  intros Hb. unfold same_row, computer_move. destruct (choose_move _ _ _).2 as [[i j]|]; [|done].
  intros [= <-].
  destruct (update_game_state_fields (set_game_field g (set_cell (game_field g) i j
              (value (player2_symbol g))))) as (Hid & Hf & _ & _ & _ & _ & _ & Hc).
  game_simpl. assert (set_cell (game_field g) i j (value (player2_symbol g)) <> []).
  { intros Hnil. apply (f_equal length) in Hnil. unfold set_cell in Hnil.
    rewrite length_insert in Hnil. destruct (game_field g); done. }
  destruct (is_game_over _); simpl; game_simpl; rewrite ?Hid, ?Hf, ?Hc; done.
Qed.

Lemma set_current_same_row g p :
  game_field g <> [] -> same_row g (set_current_player_id g p).
Proof. intros. by game_simpl. Qed.

Lemma same_row_trans g1 g2 g3 : same_row g1 g2 -> same_row g2 g3 -> same_row g1 g3.
Proof. unfold same_row. intros (-> & -> & _) (-> & -> & ?). done. Qed.

(** Clients reason about these through the lemmas above. *)
Arguments update_game_state : simpl never.
Arguments apply_board : simpl never.
Arguments check_move : simpl never.
Arguments play : simpl never.

Lemma join_same_row g pid g' :
  game_field g <> [] -> join g pid = inr g' -> same_row g g'.
Proof.
  intros Hb. unfold join. repeat case_bool_decide; simpl; try discriminate.
  intros [= <-]. by game_simpl.
Qed.
