(* ===== verification/Persistence.v ===== *)
(** * Stored games: the ORM entity and its mappers

    Models [src/src/datasource/model/current_game_entity.py],
    [game_field_entity.py] and [src/src/datasource/mapper/game_mapper.py].
    An entity keeps the enums as their string values and the symbols as
    integers; the game field is the board of the related
    [GameFieldEntity] row, stored as JSON text ([board_data]) and read
    back by [json.loads], which is taken to invert [json.dumps] on lists
    of lists of integers.  [to_domain] can raise: [GameType(v)] and
    [GameState(v)] raise [ValueError] on an unknown string, and a symbol
    outside {1, 2} gives [from_value] = [None], which the code stores in
    the game and fails on at the first [.value]; both are the error
    [InvalidStoredValue] here. *)

From Stdlib Require Import ZArith Lia String.
From stdpp Require Import base list option decidable.
From S2P Require Import Prelude Board Game.

Local Open Scope Z_scope.

(** [CurrentGameEntity]: one row of [current_games] joined with its
    [game_fields] row.  [game_id] is the [String(36)] of the UUID; as
    [str] is injective on UUIDs the key is kept as the UUID. *)
Record CurrentGameEntity := mkEntity {
  e_game_id : uuid;
  e_board : list (list Z);
  e_game_type : string;
  e_game_state : string;
  e_player1_id : uuid;
  e_player2_id : option uuid;
  e_player1_symbol : Z;
  e_player2_symbol : Z;
  e_current_player_id : option uuid;
  e_winner_id : option uuid;
  e_created_at : Z
}.

(** [GameMapper.to_entity] (lines 33-50). *)
Definition to_entity (g : CurrentGame) : CurrentGameEntity :=
  mkEntity (game_id g) (game_field g) (GameType.value (game_type g))
    (GameState.value (game_state g)) (player1_id g) (player2_id g)
    (value (player1_symbol g)) (value (player2_symbol g))
    (current_player_id g) (winner_id g) (created_at g).

(** [GameMapper.to_domain] (lines 12-31). *)
Definition to_domain (e : CurrentGameEntity) : option CurrentGame :=
  ty ← GameType.from_value (e_game_type e);
  st ← GameState.from_value (e_game_state e);
  s1 ← PlayerSymbol.from_value (e_player1_symbol e);
  s2 ← PlayerSymbol.from_value (e_player2_symbol e);
  Some (mkGame (e_game_id e) (GameField.init (e_board e)) ty st (e_player1_id e)
          (e_player2_id e) s1 s2 (e_current_player_id e) (e_winner_id e) (e_created_at e)).

Lemma GameType_from_value_value t : GameType.from_value (GameType.value t) = Some t.
Proof. by destruct t. Qed.

Lemma GameState_from_value_value t : GameState.from_value (GameState.value t) = Some t.
Proof. by destruct t. Qed.

Lemma PlayerSymbol_from_value_value s : PlayerSymbol.from_value (value s) = Some s.
Proof. by destruct s. Qed.

(** C13: reading back what [to_entity] wrote gives the same game, board,
    state, players, symbols, current player, winner and creation time,
    for every game whose board is not the empty list (which
    [GameField.__init__] would replace by the empty 3x3 board). *)
Theorem to_domain_to_entity g :
  game_field g <> [] -> to_domain (to_entity g) = Some g.
Proof.
  intros Hb. unfold to_domain, to_entity. simpl.
  rewrite GameType_from_value_value, GameState_from_value_value. simpl.
  rewrite !PlayerSymbol_from_value_value. simpl.
  destruct g as [? f ? ? ? ? ? ? ? ? ?]; simpl in *. destruct f; [done|reflexivity].
Qed.

(** The empty board is the one exception. *)
Example to_domain_empty_board :
  to_domain (to_entity (set_game_field (new_game 1 7 GameType.PVP 0) []))
  = Some (new_game 1 7 GameType.PVP 0).
Proof. reflexivity. Qed.

(** A stored row with an unknown state string cannot be read. *)
Example to_domain_bad_state :
  to_domain (mkEntity 1 [] "pvp" "finished" 7 None 1 2 None None 0) = None.
Proof. reflexivity. Qed.

Lemma to_domain_to_entity_witness :
  game_field (new_game 1 7 GameType.PVP 0) <> [] /\
  to_domain (to_entity (new_game 1 7 GameType.PVP 0)) = Some (new_game 1 7 GameType.PVP 0).
Proof.
  assert (H : game_field (new_game 1 7 GameType.PVP 0) <> []) by (vm_compute; discriminate).
  split; [exact H|exact (to_domain_to_entity _ H)].
Defined.
