(* ===== verification/Service.v ===== *)
(** * The game service with its store

    Models [GameRepository] ([src/src/datasource/repository/game_repository.py],
    lines 14-80) and the persisted operations of [GameServiceImpl]
    ([create_game], [join_game], [make_move], [_make_computer_move],
    [get_game], [get_available_games], [get_completed_games_by_user]).

    The service sees the repository through the class [GameRepository]
    (get, save, list) and relies only on the laws of
    [GameRepositoryLaws]; [gmap_repo] implements both over a finite map
    from game ids to rows.  Every [save_game] commits at once, so the
    operations run in the state-and-error monad of the prelude, where a
    [ValueError] raised after a write leaves the write in the store. *)

From Stdlib Require Import ZArith Lia String.
From stdpp Require Import base list option decidable gmap.
From S2P Require Import Prelude Board Minimax Game Persistence.

Local Open Scope Z_scope.

(** ** The repository interface *)

(** [existing_game.x = game.x] for every column but [id] and
    [created_at] (lines 22-30): an update keeps the stored creation
    time. *)
Definition keep_created_at (existing e : CurrentGameEntity) : CurrentGameEntity :=
  mkEntity (e_game_id e) (e_board e) (e_game_type e) (e_game_state e) (e_player1_id e)
    (e_player2_id e) (e_player1_symbol e) (e_player2_symbol e) (e_current_player_id e)
    (e_winner_id e) (e_created_at existing).

Class GameRepository (S : Type) := {
  repo_get_game : S -> uuid -> option CurrentGameEntity;
  repo_save_game : CurrentGameEntity -> S -> CurrentGameEntity * S;
  repo_all_games : S -> list CurrentGameEntity
}.

Class GameRepositoryLaws (S : Type) `{!GameRepository S} := {
  save_game_returns e s :
    (repo_save_game e s).1 =
      match repo_get_game s (e_game_id e) with
      | Some existing => keep_created_at existing e
      | None => e
      end;
  get_after_save e s :
    repo_get_game (repo_save_game e s).2 (e_game_id e) = Some (repo_save_game e s).1;
  get_after_save_other e s k :
    k <> e_game_id e -> repo_get_game (repo_save_game e s).2 k = repo_get_game s k;
  all_games_get s e :
    In e (repo_all_games s) <-> exists k, repo_get_game s k = Some e
}.

(** ** The implementation over a map ([GameRepository] methods) *)

Abbreviation game_table := (gmap uuid CurrentGameEntity).

(** [get_game]: [filter_by(game_id=str(game_id)).first()]. *)
Definition gmap_get_game (s : game_table) (game_id : uuid) : option CurrentGameEntity :=
  s !! game_id.

(** [save_game]: update the existing row, or add a new one. *)
Definition gmap_save_game (game : CurrentGameEntity) (s : game_table)
    : CurrentGameEntity * game_table :=
  match s !! e_game_id game with
  | Some existing_game =>
      let existing_game := keep_created_at existing_game game in
      (existing_game, <[e_game_id game := existing_game]> s)
  | None => (game, <[e_game_id game := game]> s)
  end.

(** [query(CurrentGameEntity)...all()]: every row. *)
Definition gmap_all_games (s : game_table) : list CurrentGameEntity :=
  (map_to_list s).*2.

(** [delete_game] (lines 58-64). *)
Definition gmap_delete_game (game_id : uuid) (s : game_table) : bool * game_table :=
  match s !! game_id with
  | Some _ => (true, delete game_id s)
  | None => (false, s)
  end.

#[export] Instance gmap_repo : GameRepository game_table := {
  repo_get_game := gmap_get_game;
  repo_save_game := gmap_save_game;
  repo_all_games := gmap_all_games
}.

#[export] Instance gmap_repo_laws : GameRepositoryLaws game_table.
Proof.
  split; simpl; unfold gmap_get_game, gmap_save_game, gmap_all_games.
  - intros e s. by destruct (s !! e_game_id e).
  - intros e s. destruct (s !! e_game_id e); simpl; apply lookup_insert_eq.
  - intros e s k Hk. destruct (s !! e_game_id e); simpl; by apply lookup_insert_ne.
  - intros s e. rewrite <- list_elem_of_In, list_elem_of_fmap. split.
    + intros ([k e'] & -> & Hin). apply elem_of_map_to_list in Hin. by exists k.
    + intros [k Hk]. exists (k, e). split; [done|]. by apply elem_of_map_to_list.
Qed.

(** ** The service operations *)

Section GameService.
Context {S : Type} `{!GameRepository S}.

Abbreviation M := (stE S GameError).

Definition get_entity (game_id : uuid) : M (option CurrentGameEntity) :=
  fun s => (inr (repo_get_game s game_id), s).

Definition save_entity (e : CurrentGameEntity) : M CurrentGameEntity :=
  fun s => let '(e', s') := repo_save_game e s in (inr e', s').

(** [self._mapper.to_domain(entity)], raising on a corrupt row. *)
Definition to_domain_m (e : CurrentGameEntity) : M CurrentGame :=
  match to_domain e with
  | Some g => mret g
  | None => raise InvalidStoredValue
  end.

(** [entity = to_entity(game); saved = save_game(entity);
    return to_domain(saved)]: the write-and-reload of every operation. *)
Definition persist (game : CurrentGame) : M CurrentGame :=
  saved_entity ← save_entity (to_entity game); to_domain_m saved_entity.

(** [entity = get_game(game_id); if not entity: raise ...;
    game = to_domain(entity)]. *)
Definition load (game_id : uuid) : M CurrentGame :=
  entity ← get_entity game_id;
  match entity with
  | None => raise GameNotFound
  | Some e => to_domain_m e
  end.

(** [create_game] (lines 21-59). *)
Definition create_game (game_id player_id : uuid) (game_type : GameType.t) (now : Z)
    : M CurrentGame :=
  persist (new_game game_id player_id game_type now).

(** [join_game] (lines 61-84). *)
Definition join_game (game_id player_id : uuid) : M CurrentGame :=
  game ← load game_id;
  match join game player_id with
  | inl err => raise err
  | inr game => persist game
  end.

(** [_make_computer_move] (lines 124-159): save only when a move was
    found. *)
Definition make_computer_move (game : CurrentGame) : M CurrentGame :=
  match computer_move game with
  | Some game => persist game
  | None => mret game
  end.

(** [make_move] (lines 86-122): up to three writes. *)
Definition make_move (game_id player_id : uuid) (board : list (list Z)) : M CurrentGame :=
  game ← load game_id;
  match check_move game player_id board with
  | Some err => raise err
  | None =>
      game ← persist (apply_board game board);
      game ← (if negb (is_game_over game) && bool_decide (game_type game = GameType.PVC)
              then make_computer_move game else mret game);
      if negb (is_game_over game) && bool_decide (game_type game = GameType.PVP)
      then persist (set_current_player_id game (get_opponent_id game player_id))
      else mret game
  end.

(** [get_game] (lines 244-249). *)
Definition get_game (game_id : uuid) : M (option CurrentGame) :=
  entity ← get_entity game_id;
  match entity with
  | None => mret None
  | Some e => game ← to_domain_m e; mret (Some game)
  end.

Definition all_entities : M (list CurrentGameEntity) :=
  fun s => (inr (repo_all_games s), s).

(** [game_state.in_([...])] with the states' string values. *)
Definition state_in (states : list GameState.t) (e : CurrentGameEntity) : bool :=
  existsb (fun st => String.eqb (GameState.value st) (e_game_state e)) states.

(** [get_available_games] (repository lines 47-56, service 251-254). *)
Definition get_available_games : M (list CurrentGame) :=
  entities ← all_entities;
  mapM to_domain_m
    (List.filter (state_in [GameState.WAITING_FOR_PLAYER; GameState.PLAYER_TURN]) entities).

(** [order_by(created_at.desc())]: insertion of a row before the first
    one created no later. *)
Fixpoint insert_by_created_desc (e : CurrentGameEntity) (l : list CurrentGameEntity)
    : list CurrentGameEntity :=
  match l with
  | [] => [e]
  | e' :: l' => if e_created_at e' <=? e_created_at e then e :: l
                else e' :: insert_by_created_desc e l'
  end.

Definition sort_by_created_desc (l : list CurrentGameEntity) : list CurrentGameEntity :=
  fold_right insert_by_created_desc [] l.

(** [(player1_id == user_id) | (player2_id == user_id)]. *)
Definition involves (user_id : uuid) (e : CurrentGameEntity) : bool :=
  bool_decide (e_player1_id e = user_id) || bool_decide (e_player2_id e = Some user_id).

(** [get_completed_games_by_user] (repository lines 66-80, service 256-258). *)
Definition get_completed_games_by_user (user_id : uuid) : M (list CurrentGame) :=
  entities ← all_entities;
  mapM to_domain_m
    (sort_by_created_desc
       (List.filter (fun e => involves user_id e
                              && state_in [GameState.PLAYER_WON; GameState.DRAW] e) entities)).

End GameService.

(** ** The service refines the game state machine *)

Section Refinement.
Context {S : Type} `{!GameRepository S} `{!GameRepositoryLaws S}.

Lemma keep_created_at_same e0 e :
  e_created_at e0 = e_created_at e -> keep_created_at e0 e = e.
Proof. destruct e; unfold keep_created_at; simpl. intros ->. reflexivity. Qed.

(** The row of game [gid] holds [g]; the other rows are those of [s0]. *)
Definition stored_as (s0 : S) (gid : uuid) (s : S) (g : CurrentGame) : Prop :=
  repo_get_game s gid = Some (to_entity g) /\ game_id g = gid /\ game_field g <> [] /\
  forall k, k <> gid -> repo_get_game s k = repo_get_game s0 k.

Lemma load_stored s0 gid s g : stored_as s0 gid s g -> load gid s = (inr g, s).
Proof.
  intros (Hget & _ & Hb & _). unfold load, get_entity, mbind, stE_bind.
  rewrite Hget. unfold to_domain_m. by rewrite to_domain_to_entity.
Qed.

(** One write-and-reload of a game of the same row. *)
Lemma persist_stored s0 gid s g g' :
  stored_as s0 gid s g -> same_row g g' ->
  exists s', persist g' s = (inr g', s') /\ stored_as s0 gid s' g'.
Proof.
  intros (Hget & Hid & Hb & Hoth) (Hid' & Hc' & Hb').
  pose proof (save_game_returns (to_entity g') s) as Hret.
  pose proof (get_after_save (to_entity g') s) as Hafter.
  pose proof (get_after_save_other (to_entity g') s) as Hother.
  simpl in Hret, Hafter, Hother. rewrite Hid', Hid, Hget in Hret.
  rewrite keep_created_at_same in Hret by (simpl; congruence).
  exists (repo_save_game (to_entity g') s).2.
  unfold persist, save_entity, mbind, stE_bind.
  destruct (repo_save_game (to_entity g') s) as [e' s'] eqn:E. simpl in *. subst e'.
  unfold to_domain_m. rewrite to_domain_to_entity by done. split; [done|].
  rewrite Hid', Hid in Hafter, Hother. split_and!; try congruence.
  intros k Hk. rewrite Hother by done. auto.
Qed.

Lemma make_computer_move_stored s0 gid s g :
  stored_as s0 gid s g ->
  exists s', make_computer_move g s = (inr (default g (computer_move g)), s') /\
             stored_as s0 gid s' (default g (computer_move g)).
Proof.
  intros Hst. unfold make_computer_move. destruct (computer_move g) as [g'|] eqn:E; simpl.
  - apply (persist_stored _ _ _ g); [done|]. apply computer_move_same_row; [apply Hst|done].
  - by exists s.
Qed.

(** C2: refinement of the state machine by the service.  If the row of
    [gid] holds the game [g], then [make_move] fails with exactly the
    error of [play], leaving the store untouched, or returns the game
    [play] computes and leaves that game in the row of [gid], every
    other row unchanged: the intermediate writes of the human move and
    of the computer's reply are invisible in the final store. *)
Theorem make_move_refines s gid pid b g :
  repo_get_game s gid = Some (to_entity g) -> game_id g = gid -> game_field g <> [] ->
  match play g pid b with
  | inl err => make_move gid pid b s = (inl err, s)
  | inr g' => exists s', make_move gid pid b s = (inr g', s') /\ stored_as s gid s' g'
  end.
Proof.
  intros Hget Hid Hb. assert (Hst : stored_as s gid s g) by (split_and!; auto).
  unfold make_move. rewrite (stE_bind_run _ _ _ _ _ (load_stored _ _ _ _ Hst)).
  unfold play. destruct (check_move g pid b) as [err|]; [reflexivity|]. cbv beta iota zeta.
  destruct (persist_stored _ _ _ _ (apply_board g b) Hst (apply_board_same_row g b))
    as (s1 & Hp1 & Hst1).
  rewrite (stE_bind_run _ _ _ _ _ Hp1).
  set (g1 := apply_board g b) in *.
  assert (Hmid : exists s2,
    (if negb (is_game_over g1) && bool_decide (game_type g1 = GameType.PVC)
     then make_computer_move g1 else mret g1) s1 =
    (inr (if negb (is_game_over g1) && bool_decide (game_type g1 = GameType.PVC)
          then default g1 (computer_move g1) else g1), s2) /\
    stored_as s gid s2 (if negb (is_game_over g1) && bool_decide (game_type g1 = GameType.PVC)
                        then default g1 (computer_move g1) else g1)).
  { destruct (_ && _); [by apply make_computer_move_stored|by exists s1]. }
  destruct Hmid as (s2 & Hp2 & Hst2). rewrite (stE_bind_run _ _ _ _ _ Hp2).
  set (g2 := if negb (is_game_over g1) && bool_decide (game_type g1 = GameType.PVC)
             then default g1 (computer_move g1) else g1) in *.
  destruct (negb (is_game_over g2) && bool_decide (game_type g2 = GameType.PVP)).
  - apply (persist_stored _ _ _ g2); [done|]. apply set_current_same_row, Hst2.
  - by exists s2.
Qed.

(** C10: the same refinement for [join_game] and [join]. *)
Theorem join_game_refines s gid pid g :
  repo_get_game s gid = Some (to_entity g) -> game_id g = gid -> game_field g <> [] ->
  match join g pid with
  | inl err => join_game gid pid s = (inl err, s)
  | inr g' => exists s', join_game gid pid s = (inr g', s') /\ stored_as s gid s' g'
  end.
Proof.
  intros Hget Hid Hb. assert (Hst : stored_as s gid s g) by (split_and!; auto).
  unfold join_game. rewrite (stE_bind_run _ _ _ _ _ (load_stored _ _ _ _ Hst)).
  destruct (join g pid) as [err|g'] eqn:E; [reflexivity|].
  apply (persist_stored _ _ _ g); [done|]. by apply (join_same_row g pid).
Qed.

(** Creating a game under a fresh id stores it where [get_game] reads it. *)
Lemma create_game_stored s gid pid ty now :
  repo_get_game s gid = None ->
  exists s', create_game gid pid ty now s = (inr (new_game gid pid ty now), s') /\
             get_game gid s' = (inr (Some (new_game gid pid ty now)), s').
Proof.
  intros Hnone. set (g := new_game gid pid ty now).
  assert (Hid : game_id g = gid) by (by destruct ty).
  assert (Hb : game_field g <> []) by (by destruct ty).
  pose proof (save_game_returns (to_entity g) s) as Hret.
  pose proof (get_after_save (to_entity g) s) as Hafter.
  simpl in Hret, Hafter. rewrite Hid, Hnone in Hret. rewrite Hid in Hafter.
  exists (repo_save_game (to_entity g) s).2.
  unfold create_game, persist, save_entity, get_game, get_entity, mbind, stE_bind.
  fold g. destruct (repo_save_game (to_entity g) s) as [e' s'] eqn:E. simpl in *. subst e'.
  rewrite Hafter. unfold to_domain_m. rewrite to_domain_to_entity by done. done.
Qed.

(** C11: the round trip of the spec: a game created under a fresh id and
    read back by [get_game] is the created game, with its empty board,
    state, players and symbols. *)
Theorem create_then_get s gid pid ty now :
  repo_get_game s gid = None ->
  exists s', create_game gid pid ty now s = (inr (new_game gid pid ty now), s') /\
             get_game gid s' = (inr (Some (new_game gid pid ty now)), s').
Proof. apply create_game_stored. Qed.

(** C12: an unknown game id: [make_move] and [join_game] raise the
    not-found [ValueError] and [get_game] returns [None], all without
    touching the store. *)
Theorem unknown_game_rejected s gid pid b :
  repo_get_game s gid = None ->
  make_move gid pid b s = (inl GameNotFound, s) /\
  join_game gid pid s = (inl GameNotFound, s) /\
  get_game gid s = (inr None, s).
Proof.
  intros Hnone. unfold make_move, join_game, get_game, load, get_entity, mbind, stE_bind.
  by rewrite Hnone.
Qed.
End Refinement.

(** ** Witnesses on a store with one PvC game *)

Definition pvc_game : CurrentGame := new_game 1 7 GameType.PVC 0.
Definition one_game_store : game_table := {[1%N := to_entity pvc_game]}.
Definition center_move : list (list Z) := [[0;0;0];[0;1;0];[0;0;0]].

Lemma make_move_refines_witness :
  repo_get_game one_game_store 1 = Some (to_entity pvc_game) /\ game_id pvc_game = 1%N /\
  game_field pvc_game <> [] /\
  match play pvc_game 7 center_move with
  | inl err => make_move 1 7 center_move one_game_store = (inl err, one_game_store)
  | inr g' => exists s', make_move 1 7 center_move one_game_store = (inr g', s') /\
                         stored_as one_game_store 1 s' g'
  end.
Proof.
  assert (H1 : repo_get_game one_game_store 1 = Some (to_entity pvc_game)) by reflexivity.
  assert (H2 : game_id pvc_game = 1%N) by reflexivity.
  assert (H3 : game_field pvc_game <> []) by (vm_compute; discriminate).
  split_and!; [exact H1|exact H2|exact H3|].
  exact (make_move_refines one_game_store 1 7 center_move pvc_game H1 H2 H3).
Defined.

Lemma join_game_refines_witness :
  repo_get_game one_game_store 1 = Some (to_entity pvc_game) /\ game_id pvc_game = 1%N /\
  game_field pvc_game <> [] /\
  match join pvc_game 8 with
  | inl err => join_game 1 8 one_game_store = (inl err, one_game_store)
  | inr g' => exists s', join_game 1 8 one_game_store = (inr g', s') /\
                         stored_as one_game_store 1 s' g'
  end.
Proof.
  assert (H1 : repo_get_game one_game_store 1 = Some (to_entity pvc_game)) by reflexivity.
  assert (H2 : game_id pvc_game = 1%N) by reflexivity.
  assert (H3 : game_field pvc_game <> []) by (vm_compute; discriminate).
  split_and!; [exact H1|exact H2|exact H3|].
  exact (join_game_refines one_game_store 1 8 pvc_game H1 H2 H3).
Defined.

Lemma create_then_get_witness :
  repo_get_game one_game_store 2 = None /\
  exists s', create_game 2 9 GameType.PVP 5 one_game_store
               = (inr (new_game 2 9 GameType.PVP 5), s') /\
             get_game 2 s' = (inr (Some (new_game 2 9 GameType.PVP 5)), s').
Proof.
  assert (H : repo_get_game one_game_store 2 = None) by reflexivity.
  split; [exact H|exact (create_then_get one_game_store 2 9 GameType.PVP 5 H)].
Defined.

Lemma unknown_game_rejected_witness :
  repo_get_game one_game_store 3 = None /\
  make_move 3 7 center_move one_game_store = (inl GameNotFound, one_game_store) /\
  join_game 3 7 one_game_store = (inl GameNotFound, one_game_store) /\
  get_game 3 one_game_store = (inr None, one_game_store).
Proof.
  assert (H : repo_get_game one_game_store 3 = None) by reflexivity.
  split; [exact H|exact (unknown_game_rejected one_game_store 3 7 center_move H)].
Defined.
