(* ===== verification/Leaderboard.v ===== *)
(** * The leaderboard

    Models [GameRepository.get_leaderboard]
    ([src/src/datasource/repository/game_repository.py], lines 82-114)
    and [GameServiceImpl.get_leaderboard]
    ([src/src/domain/service/game_service_impl.py], lines 260-281).

    The per-user counters are the [defaultdict] of the code, an
    association list in the order users are first met.  A win ratio is
    the Python [float] [wins / total]; the model keeps the exact
    rational ([Q]).  Two ratios of counts below 2^26 are equal as floats
    exactly when they are equal as rationals and are ordered the same
    way, so the sort below orders rows as the code does for any
    realistic number of games. *)

From Stdlib Require Import ZArith QArith Lia String Sorted Permutation.
From stdpp Require Import base list option decidable.
From S2P Require Import Prelude Board Game Persistence Service.

(** ** Counting completed games *)

(** [user_stats = defaultdict(lambda: {"wins": 0, "total": 0})]. *)
Abbreviation user_stats := (list (uuid * (nat * nat))).

(** [user_stats[user_id]["total"] += 1] and, when the player won,
    [user_stats[user_id]["wins"] += 1]; a first access adds the user at
    the end with zero counters. *)
Fixpoint bump (user_id : uuid) (won : bool) (stats : user_stats) : user_stats :=
  match stats with
  | [] => [(user_id, (if won then 1 else 0, 1))%nat]
  | (u, (w, t)) :: rest =>
      if (u =? user_id)%N then (u, (if won then S w else w, S t)) :: rest
      else (u, (w, t)) :: bump user_id won rest
  end.

(** [x == user_id] for a nullable UUID column. *)
Definition opt_is (x : option uuid) (user_id : uuid) : bool :=
  match x with Some y => (y =? user_id)%N | None => false end.

(** The body of [for game in completed_games] (lines 95-104).  The test
    [if game.player1_id:] holds for every UUID. *)
Definition count_game (stats : user_stats) (game : CurrentGameEntity) : user_stats :=
  let stats := bump (e_player1_id game) (opt_is (e_winner_id game) (e_player1_id game)) stats in
  match e_player2_id game with
  | Some p2 => bump p2 (opt_is (e_winner_id game) p2) stats
  | None => stats
  end.

Definition collect_stats (completed_games : list CurrentGameEntity) : user_stats :=
  fold_left count_game completed_games [].

(** ** Ranking *)

(** The tuple [(user_id, win_ratio, wins, total)]. *)
Record LeaderRow := mkRow {
  lr_user_id : uuid;
  lr_win_ratio : Q;
  lr_wins : nat;
  lr_total : nat
}.

(** Lines 106-110: one row per user with a positive total. *)
Definition to_results (stats : user_stats) : list LeaderRow :=
  List.map (fun '(u, (w, t)) => mkRow u (Qmake (Z.of_nat w) (Pos.of_nat t)) w t)
    (List.filter (fun '(_, (_, t)) => (0 <? t)%nat) stats).

(** [(x[1], x[2]) < (y[1], y[2])]: tuples compare lexicographically. *)
Definition key_lt (x y : LeaderRow) : bool :=
  match Qcompare (lr_win_ratio x) (lr_win_ratio y) with
  | Lt => true
  | Eq => (lr_wins x <? lr_wins y)%nat
  | Gt => false
  end.

(** [results.sort(key=..., reverse=True)] is stable: a row goes after
    every row already placed whose key is not smaller. *)
Fixpoint insert_desc (x : LeaderRow) (l : list LeaderRow) : list LeaderRow :=
  match l with
  | [] => [x]
  | y :: l' => if key_lt y x then x :: l else y :: insert_desc x l'
  end.

Definition sort_desc (results : list LeaderRow) : list LeaderRow :=
  fold_left (fun acc x => insert_desc x acc) results [].

Section LeaderboardOps.
Context {S : Type} `{!GameRepository S}.

(** [GameRepository.get_leaderboard(limit)]: the completed games,
    counted, ranked and cut to [results[:limit]]. *)
Definition repo_get_leaderboard (limit : nat) : stE S GameError (list LeaderRow) :=
  games ← all_entities;
  let completed_games := List.filter (state_in [GameState.PLAYER_WON; GameState.DRAW]) games in
  mret (take limit (sort_desc (to_results (collect_stats completed_games)))).

(** [LeaderStats(user_id, login, win_ratio)]. *)
Record LeaderStats := mkLeaderStats {
  ls_user_id : uuid;
  ls_login : string;
  ls_win_ratio : Q
}.

(** The user service's [find_by_id(user_id).login], and [str(user_id)]
    used when no user is found. *)
Variable find_login : uuid -> option string.
Variable uuid_str : uuid -> string.

(** [GameServiceImpl.get_leaderboard] (lines 260-281). *)
Definition get_leaderboard (limit : Z) : stE S GameError (list LeaderStats) :=
  if (limit <? 1)%Z then raise LimitTooSmall
  else if (100 <? limit)%Z then raise LimitTooLarge
  else
    leaderboard_data ← repo_get_leaderboard (Z.to_nat limit);
    mret (List.map (fun r =>
      mkLeaderStats (lr_user_id r)
        (match find_login (lr_user_id r) with
         | Some login => login
         | None => uuid_str (lr_user_id r)
         end)
        (lr_win_ratio r)) leaderboard_data).
End LeaderboardOps.

(** ** What the counters hold *)

(** [user_stats[u]] when present. *)
Definition stats_lookup (u : uuid) (st : user_stats) : option (nat * nat) :=
  snd <$> List.find (fun p => (p.1 =? u)%N) st.

(** The specification of the counters: the completed games [u] played
    in either slot, and those of them [u] won. *)
Definition games_of (u : uuid) (l : list CurrentGameEntity) : nat :=
  length (List.filter (fun e => (e_player1_id e =? u)%N) l) +
  length (List.filter (fun e => opt_is (e_player2_id e) u) l).

Definition wins_of (u : uuid) (l : list CurrentGameEntity) : nat :=
  length (List.filter (fun e => (e_player1_id e =? u)%N && opt_is (e_winner_id e) u) l) +
  length (List.filter (fun e => opt_is (e_player2_id e) u && opt_is (e_winner_id e) u) l).

(** Adding [w] wins out of [t] games to a counter that may be absent. *)
Definition add_counts (o : option (nat * nat)) (w t : nat) : option (nat * nat) :=
  match o with
  | Some (w0, t0) => Some (w0 + w, t0 + t)%nat
  | None => if (t =? 0)%nat then None else Some (w, t)
  end.

Lemma add_counts_add o w1 t1 w2 t2 :
  (w1 <= t1)%nat ->
  add_counts (add_counts o w1 t1) w2 t2 = add_counts o (w1 + w2) (t1 + t2).
Proof.
  intros Hw. destruct o as [[w0 t0]|]; simpl.
  - f_equal. f_equal; lia.
  - destruct (Nat.eqb_spec t1 0) as [->|Ht1]; simpl.
    + assert (w1 = 0%nat) as -> by lia. reflexivity.
    + destruct (Nat.eqb_spec t2 0), (Nat.eqb_spec (t1 + t2) 0); try lia; f_equal; f_equal; lia.
Qed.

Lemma stats_lookup_bump u v won st :
  stats_lookup u (bump v won st) =
  if (v =? u)%N then add_counts (stats_lookup u st) (if won then 1 else 0) 1
  else stats_lookup u st.
Proof.
  induction st as [|[u' [w t]] st IH]; unfold stats_lookup in *; simpl.
  - destruct (N.eqb_spec v u); simpl; [by destruct won|done].
  - destruct (N.eqb_spec u' v) as [<-|Hne]; simpl.
    + destruct (N.eqb_spec u' u) as [<-|Hne']; simpl; [|done].
      destruct won; simpl; do 2 f_equal; lia.
    + destruct (N.eqb_spec u' u) as [<-|Hne']; simpl.
      * destruct (N.eqb_spec v u'); [congruence|done].
      * exact IH.
Qed.

Lemma length_filter_andb {A} (p q : A -> bool) (l : list A) :
  (length (List.filter (fun x => p x && q x) l) <= length (List.filter p l))%nat.
Proof. induction l as [|x l IH]; simpl; [lia|]. destruct (p x), (q x); simpl; lia. Qed.

Lemma wins_le_games u l : (wins_of u l <= games_of u l)%nat.
Proof.
  unfold wins_of, games_of.
  pose proof (length_filter_andb (fun e => (e_player1_id e =? u)%N)
                (fun e => opt_is (e_winner_id e) u) l).
  pose proof (length_filter_andb (fun e => opt_is (e_player2_id e) u)
                (fun e => opt_is (e_winner_id e) u) l).
  simpl in *. lia.
Qed.

Lemma counts_cons u e l :
  wins_of u (e :: l) = (wins_of u [e] + wins_of u l)%nat /\
  games_of u (e :: l) = (games_of u [e] + games_of u l)%nat.
Proof.
  unfold wins_of, games_of; simpl.
  destruct (e_player1_id e =? u)%N, (opt_is (e_player2_id e) u), (opt_is (e_winner_id e) u);
    simpl; split; lia.
Qed.

Lemma stats_lookup_count_game u st e :
  stats_lookup u (count_game st e) =
  add_counts (stats_lookup u st) (wins_of u [e]) (games_of u [e]).
Proof.
  destruct e as [gid b ty stt p1 p2 s1 s2 cur win t].
  unfold count_game, wins_of, games_of; simpl.
  destruct (N.eqb_spec p1 u) as [->|H1]; simpl;
    destruct p2 as [p2|]; simpl; rewrite ?stats_lookup_bump;
    try destruct (N.eqb_spec p2 u) as [->|H2]; simpl;
    rewrite ?N.eqb_refl; try (destruct (N.eqb_spec p1 u); [congruence|]);
    destruct (opt_is win u); simpl;
    destruct (stats_lookup u st) as [[w0 t0]|]; simpl; try done;
    do 2 f_equal; lia.
Qed.

Lemma add_counts_0 o : add_counts o 0 0 = o.
Proof. destruct o as [[w t]|]; simpl; [do 2 f_equal; lia|done]. Qed.

(** The loop over the completed games adds, for every user, the games
    they played and won. *)
Lemma stats_lookup_fold u l st :
  stats_lookup u (fold_left count_game l st) =
  add_counts (stats_lookup u st) (wins_of u l) (games_of u l).
Proof.
  induction l as [|e l IH] in st |- *; simpl.
  - symmetry. apply add_counts_0.
  - rewrite IH, stats_lookup_count_game, add_counts_add by apply wins_le_games.
    by destruct (counts_cons u e l) as [-> ->].
Qed.

Lemma stats_lookup_collect u l :
  stats_lookup u (collect_stats l) =
  if (games_of u l =? 0)%nat then None else Some (wins_of u l, games_of u l).
Proof. unfold collect_stats. by rewrite stats_lookup_fold. Qed.

(** The keys of the counters: [bump] adds its user once. *)
Lemma bump_keys v won st k :
  In k (map fst (bump v won st)) <-> k = v \/ In k (map fst st).
Proof.
  induction st as [|[u [w t]] st IH]; simpl; [naive_solver|].
  destruct (N.eqb_spec u v) as [->|]; simpl; [naive_solver|]. rewrite IH. naive_solver.
Qed.

Lemma bump_NoDup v won st :
  List.NoDup (map fst st) -> List.NoDup (map fst (bump v won st)).
Proof.
  induction st as [|[u [w t]] st IH]; simpl; intros Hnd.
  - constructor; [intros []|constructor].
  - apply NoDup_cons_iff in Hnd as [Hu Hnd].
    destruct (N.eqb_spec u v) as [->|Huv]; simpl; constructor; auto.
    rewrite bump_keys. intros [->|]; auto.
Qed.

Lemma collect_stats_NoDup l : List.NoDup (map fst (collect_stats l)).
Proof.
  unfold collect_stats. apply fold_left_inv; [constructor|].
  intros st e _ Hnd. unfold count_game.
  destruct (e_player2_id e); auto using bump_NoDup.
Qed.

(** With distinct keys, an entry of the counters is what [user_stats[u]]
    reads. *)
Lemma stats_lookup_In u x st :
  List.NoDup (map fst st) -> In (u, x) st -> stats_lookup u st = Some x.
Proof.
  unfold stats_lookup. induction st as [|[u' x'] st IH]; simpl; [done|].
  intros Hnd%NoDup_cons_iff [Heq|Hin]; destruct Hnd as [Hu' Hnd].
  - injection Heq as -> ->. by rewrite N.eqb_refl.
  - destruct (N.eqb_spec u' u) as [->|]; [|auto].
    exfalso. apply Hu'. apply (in_map fst _ _ Hin).
Qed.

Lemma stats_lookup_Some_In u x st : stats_lookup u st = Some x -> In (u, x) st.
Proof.
  unfold stats_lookup. destruct (List.find _ st) as [[u' x']|] eqn:E; simpl; [|done].
  intros [= ->]. apply find_some in E as [Hin Heq%N.eqb_eq]. simpl in Heq. by subst.
Qed.

Lemma NoDup_map_filter {A B} (f : A -> B) (p : A -> bool) l :
  List.NoDup (map f l) -> List.NoDup (map f (List.filter p l)).
Proof.
  induction l as [|x l IH]; simpl; [done|]. intros [Hx Hnd]%NoDup_cons_iff.
  destruct (p x); simpl; [|auto]. constructor; [|auto].
  intros (y & Hy & [Hin _]%filter_In)%in_map_iff. apply Hx. rewrite <- Hy. by apply in_map.
Qed.

(** ** The ranking order

    [key_lt] is the lexicographic order on (ratio, wins); [ranks_ge x y]
    says that [x] may be listed before [y] in a descending sort. *)
Definition ranks_ge (x y : LeaderRow) : Prop := key_lt x y = false.

Lemma key_lt_iff x y :
  key_lt x y = true <->
  (lr_win_ratio x < lr_win_ratio y)%Q \/
  (lr_win_ratio x == lr_win_ratio y)%Q /\ (lr_wins x < lr_wins y)%nat.
Proof.
  unfold key_lt. destruct (Qcompare_spec (lr_win_ratio x) (lr_win_ratio y)) as [H|H|H].
  - rewrite Nat.ltb_lt. split; [auto|]. intros [H'|[_ ?]]; [|done].
    rewrite H in H'. by apply Qlt_irrefl in H'.
  - split; auto.
  - split; [done|]. intros [H'|[H' _]]; exfalso.
    + apply (Qlt_irrefl (lr_win_ratio x)). eapply Qlt_trans; eauto.
    + rewrite H' in H. by apply Qlt_irrefl in H.
Qed.

Lemma key_lt_asym x y : key_lt x y = true -> ranks_ge y x.
Proof.
  unfold ranks_ge, key_lt. rewrite <- (Qcompare_antisym (lr_win_ratio x)).
  destruct (_ ?= _)%Q; simpl; try done. intros ?%Nat.ltb_lt. apply Nat.ltb_ge. lia.
Qed.

(** A strict weak order: if [x < z] then [y] is above [x] or below [z]. *)
Lemma key_lt_weak x y z : key_lt x z = true -> key_lt x y = true \/ key_lt y z = true.
Proof.
  rewrite !key_lt_iff. intros [Hac|[Hac Hw]].
  - destruct (Qlt_le_dec (lr_win_ratio x) (lr_win_ratio y)) as [|Hba]; [auto|].
    right; left. eapply Qle_lt_trans; eauto.
  - destruct (Qcompare_spec (lr_win_ratio x) (lr_win_ratio y)) as [Hab|Hab|Hba].
    + destruct (Nat.lt_ge_cases (lr_wins x) (lr_wins y)); [left; right; auto|].
      right; right. split; [|lia]. rewrite <- Hab. exact Hac.
    + left; left; done.
    + right; left. rewrite <- Hac. exact Hba.
Qed.

Lemma ranks_ge_trans x y z : ranks_ge x y -> ranks_ge y z -> ranks_ge x z.
Proof.
  unfold ranks_ge. intros H1 H2. destruct (key_lt x z) eqn:E; [|done].
  destruct (key_lt_weak x y z E); congruence.
Qed.

(** ** The stable descending insertion sort *)

Lemma insert_desc_perm x l : Permutation (insert_desc x l) (x :: l).
Proof.
  induction l as [|y l IH]; simpl; [done|].
  destruct (key_lt y x); [done|]. rewrite IH. apply perm_swap.
Qed.

Lemma sort_desc_fold_perm l acc :
  Permutation (fold_left (fun acc x => insert_desc x acc) l acc) (l ++ acc).
Proof.
  induction l as [|x l IH] in acc |- *; simpl; [done|].
  rewrite IH, insert_desc_perm. symmetry. apply Permutation_middle.
Qed.

Lemma sort_desc_perm l : Permutation (sort_desc l) l.
Proof. unfold sort_desc. rewrite sort_desc_fold_perm. by rewrite app_nil_r. Qed.

Lemma insert_desc_sorted x l :
  StronglySorted ranks_ge l -> StronglySorted ranks_ge (insert_desc x l).
Proof.
  induction l as [|y l IH]; simpl; intros Hs; [repeat constructor|].
  apply StronglySorted_inv in Hs as [Hs Hy].
  destruct (key_lt y x) eqn:E.
  - constructor; [by constructor|]. constructor; [by apply key_lt_asym|].
    eapply Forall_impl; [|exact Hy]. intros z Hz.
    eapply ranks_ge_trans; [by apply key_lt_asym|exact Hz].
  - constructor; [auto|]. eapply Permutation_Forall; [symmetry; apply insert_desc_perm|].
    by constructor.
Qed.

Lemma sort_desc_sorted l : StronglySorted ranks_ge (sort_desc l).
Proof.
  unfold sort_desc. apply fold_left_inv; [constructor|].
  intros acc x _. apply insert_desc_sorted.
Qed.

(** ** [results[:limit]] of a sorted list *)

Lemma In_take_drop {A} (k : nat) (l : list A) x :
  In x l <-> In x (take k l) \/ In x (drop k l).
Proof. rewrite <- in_app_iff. by rewrite take_drop. Qed.

Lemma StronglySorted_take {A} (R : A -> A -> Prop) k l :
  StronglySorted R l -> StronglySorted R (take k l).
Proof.
  induction l as [|x l IH] in k |- *; intros Hs; destruct k; simpl; try constructor.
  all: apply StronglySorted_inv in Hs as [Hs Hx]; auto.
  apply Forall_forall. intros y Hy. rewrite Forall_forall in Hx. apply Hx.
  apply (In_take_drop k). auto.
Qed.

(** Every row cut off by [results[:limit]] ranks no higher than every
    row kept. *)
Lemma StronglySorted_take_drop {A} (R : A -> A -> Prop) k l a b :
  StronglySorted R l -> In a (take k l) -> In b (drop k l) -> R a b.
Proof.
  induction l as [|x l IH] in k |- *; intros Hs; destruct k; simpl; try done.
  apply StronglySorted_inv in Hs as [Hs Hx]. intros [<-|Ha] Hb; [|eauto].
  rewrite Forall_forall in Hx. apply Hx, (In_take_drop k). auto.
Qed.

Lemma NoDup_map_take {A B} (f : A -> B) k l :
  List.NoDup (map f l) -> List.NoDup (map f (take k l)).
Proof.
  rewrite <- (take_drop k l) at 1. rewrite map_app. apply NoDup_app_remove_r.
Qed.

(** ** The rows the ranking holds *)

Lemma in_to_results r st :
  In r (to_results st) <->
  exists u w t, In (u, (w, t)) st /\ (0 < t)%nat /\
                r = mkRow u (Qmake (Z.of_nat w) (Pos.of_nat t)) w t.
Proof.
  unfold to_results. rewrite in_map_iff. split.
  - intros ([u [w t]] & <- & [Hin Ht%Nat.ltb_lt]%filter_In). eauto 7.
  - intros (u & w & t & Hin & Ht & ->). exists (u, (w, t)).
    split; [done|]. apply filter_In. split; [done|]. by apply Nat.ltb_lt.
Qed.

(** The row of a user: wins out of games over the completed games. *)
Definition leader_row (l : list CurrentGameEntity) (u : uuid) : LeaderRow :=
  mkRow u (Qmake (Z.of_nat (wins_of u l)) (Pos.of_nat (games_of u l)))
    (wins_of u l) (games_of u l).

Definition ranking (l : list CurrentGameEntity) : list LeaderRow :=
  sort_desc (to_results (collect_stats l)).

Lemma in_ranking l r :
  In r (ranking l) <->
  (0 < games_of (lr_user_id r) l)%nat /\ r = leader_row l (lr_user_id r).
Proof.
  unfold ranking. split; intros H.
  - apply (Permutation_in _ (sort_desc_perm _)), in_to_results in H
      as (u & w & t & Hin & Ht & ->).
    apply stats_lookup_In in Hin; [|apply collect_stats_NoDup].
    rewrite stats_lookup_collect in Hin. simpl.
    destruct (Nat.eqb_spec (games_of u l) 0); [done|]. injection Hin as <- <-.
    split; [lia|done].
  - destruct H as [Hg ->]. apply (Permutation_in _ (symmetry (sort_desc_perm _))).
    apply in_to_results. do 3 eexists. split; [|split; [exact Hg|reflexivity]].
    apply stats_lookup_Some_In. rewrite stats_lookup_collect.
    destruct (Nat.eqb_spec (games_of (lr_user_id r) l) 0); [lia|done].
Qed.

Lemma ranking_NoDup l : List.NoDup (map lr_user_id (ranking l)).
Proof.
  unfold ranking. eapply Permutation_NoDup; [apply Permutation_map; symmetry; apply sort_desc_perm|].
  unfold to_results. rewrite map_map.
  erewrite map_ext; [apply NoDup_map_filter, collect_stats_NoDup|]. by intros [u [w t]].
Qed.

Lemma Zpos_of_nat t : (0 < t)%nat -> Z.pos (Pos.of_nat t) = Z.of_nat t.
Proof. intros Ht. rewrite <- positive_nat_Z, Nat2Pos.id; lia. Qed.

(** [wins / total] lies in [0, 1]. *)
Lemma leader_row_ratio_bounds l u :
  (0 < games_of u l)%nat -> (0 <= lr_win_ratio (leader_row l u) <= 1)%Q.
Proof.
  intros Hg. pose proof (wins_le_games u l).
  unfold leader_row, Qle; simpl. rewrite Zpos_of_nat by done. lia.
Qed.

Section LeaderboardSpec.
Context {S : Type} `{!GameRepository S}.
Context (find_login : uuid -> option string) (uuid_str : uuid -> string).

(** The rows the query [game_state.in_([PLAYER_WON, DRAW])] returns. *)
Definition completed_games (s : S) : list CurrentGameEntity :=
  List.filter (state_in [GameState.PLAYER_WON; GameState.DRAW]) (repo_all_games s).

Lemma repo_get_leaderboard_run limit s :
  repo_get_leaderboard limit s = (inr (take limit (ranking (completed_games s))), s).
Proof. reflexivity. Qed.

Lemma in_leaderboard limit s r :
  In r (take limit (ranking (completed_games s))) ->
  (0 < games_of (lr_user_id r) (completed_games s))%nat /\
  r = leader_row (completed_games s) (lr_user_id r).
Proof. intros Hr. apply in_ranking, (In_take_drop limit). auto. Qed.

(** C15: the repository's leaderboard is the top [limit] of the users
    who played a completed game: every row holds the user's wins and
    games over the completed games, no user appears twice, the rows are
    in descending (ratio, wins) order, and a user who played and is
    missing is missing only because [limit] rows are listed, each
    ranking at least as high as that user. *)
Theorem repo_get_leaderboard_spec limit s :
  exists rows, repo_get_leaderboard limit s = (inr rows, s) /\
  (forall r, In r rows ->
     (0 < games_of (lr_user_id r) (completed_games s))%nat /\
     r = leader_row (completed_games s) (lr_user_id r)) /\
  List.NoDup (map lr_user_id rows) /\
  StronglySorted ranks_ge rows /\
  (forall u, (0 < games_of u (completed_games s))%nat -> ~ In u (map lr_user_id rows) ->
     length rows = limit /\
     forall r, In r rows -> ranks_ge r (leader_row (completed_games s) u)).
Proof.
  eexists; split; [apply repo_get_leaderboard_run|].
  set (l := completed_games s). split_and!.
  - apply in_leaderboard.
  - apply NoDup_map_take, ranking_NoDup.
  - apply StronglySorted_take, sort_desc_sorted.
  - intros u Hg Hu.
    assert (In (leader_row l u) (ranking l)) as Hin by (by apply in_ranking).
    apply (In_take_drop limit) in Hin as [Hin|Hin].
    { exfalso. apply Hu. change u with (lr_user_id (leader_row l u)). by apply in_map. }
    split.
    + assert (limit < length (ranking l))%nat.
      { destruct (Nat.lt_ge_cases limit (length (ranking l))); [done|].
        by rewrite drop_ge in Hin. }
      rewrite length_take. lia.
    + intros r Hr. eapply StronglySorted_take_drop; [apply sort_desc_sorted|exact Hr|exact Hin].
Qed.

(** C16: [GameServiceImpl.get_leaderboard] raises exactly when the limit
    is out of [1, 100], with the message of the first failed check, and
    leaves the store as it was. *)
Theorem get_leaderboard_validates limit s e s' :
  get_leaderboard find_login uuid_str limit s = (inl e, s') <->
  s' = s /\ ((limit < 1)%Z /\ e = LimitTooSmall \/
             (1 <= limit)%Z /\ (100 < limit)%Z /\ e = LimitTooLarge).
Proof.
  unfold get_leaderboard, raise.
  destruct (Z.ltb_spec limit 1); [|destruct (Z.ltb_spec 100 limit)].
  - split; [intros [= <- <-]; auto|]. intros [-> [[_ ->]|[? _]]]; [done|lia].
  - split; [intros [= <- <-]; auto|]. intros [-> [[? _]|[_ [_ ->]]]]; [lia|done].
  - rewrite (stE_bind_run _ _ _ _ _ (repo_get_leaderboard_run _ _)).
    split; [intros [=]|]. intros [_ [[? _]|[_ [? _]]]]; lia.
Qed.

(** C17: an answer of [get_leaderboard] has at most [limit <= 100]
    entries, one per user, each with a win ratio in [0, 1], and the
    store is unchanged. *)
Theorem get_leaderboard_bounds limit s out s' :
  get_leaderboard find_login uuid_str limit s = (inr out, s') ->
  s' = s /\ (length out <= Z.to_nat limit <= 100)%nat /\
  Forall (fun x => 0 <= ls_win_ratio x <= 1)%Q out /\
  List.NoDup (map ls_user_id out).
Proof.
  unfold get_leaderboard, raise.
  destruct (Z.ltb_spec limit 1); [intros [=]|]. destruct (Z.ltb_spec 100 limit); [intros [=]|].
  rewrite (stE_bind_run _ _ _ _ _ (repo_get_leaderboard_run _ _)). intros [= <- <-].
  split_and!; [done| rewrite length_map, length_take; lia | lia | |].
  - apply Forall_forall. intros x (r & <- & Hr)%in_map_iff. simpl.
    apply in_leaderboard in Hr as [Hg ->]. by apply leader_row_ratio_bounds.
  - rewrite map_map. simpl. apply NoDup_map_take, ranking_NoDup.
Qed.
End LeaderboardSpec.

(** ** Witnesses on a store with a won game, a draw and a game in play *)

Definition lb_game (gid : uuid) (st : GameState.t) (p1 : uuid) (p2 winner : option uuid)
    : CurrentGameEntity :=
  mkEntity gid GameField.default_board "pvp" (GameState.value st) p1 p2 1 2 None winner (Z.of_N gid).

Definition lb_store : game_table :=
  {[1%N := lb_game 1 GameState.PLAYER_WON 7 (Some 8%N) (Some 7%N);
    2%N := lb_game 2 GameState.DRAW 8 None None;
    3%N := lb_game 3 GameState.PLAYER_TURN 7 (Some 9%N) None]}.

Definition no_login (u : uuid) : option string := None.
Definition uuid_name (u : uuid) : string := "user".

Definition lb_answer : list LeaderStats :=
  [mkLeaderStats 7 "user" (1 # 1); mkLeaderStats 8 "user" (0 # 2)].

Lemma get_leaderboard_bounds_witness :
  get_leaderboard no_login uuid_name 10 lb_store = (inr lb_answer, lb_store) /\
  lb_store = lb_store /\ (length lb_answer <= Z.to_nat 10 <= 100)%nat /\
  Forall (fun x => 0 <= ls_win_ratio x <= 1)%Q lb_answer /\
  List.NoDup (map ls_user_id lb_answer).
Proof.
  assert (H : get_leaderboard no_login uuid_name 10 lb_store = (inr lb_answer, lb_store))
    by (vm_compute; reflexivity).
  split; [exact H|exact (get_leaderboard_bounds no_login uuid_name 10 lb_store lb_answer lb_store H)].
Defined.

(** The scenario of the specification: limits 0 and 101 are refused,
    limit 10 ranks the user with one win above the one with two draws. *)
Example leaderboard_scenario :
  get_leaderboard no_login uuid_name 0 lb_store = (inl LimitTooSmall, lb_store) /\
  get_leaderboard no_login uuid_name 101 lb_store = (inl LimitTooLarge, lb_store) /\
  get_leaderboard no_login uuid_name 10 lb_store = (inr lb_answer, lb_store).
Proof. vm_compute. split_and!; reflexivity. Qed.

(** Rows with equal ratio and wins keep the order in which the users
    were first met (Python's sort is stable, also with [reverse=True]). *)
Example leaderboard_ties_stable :
  sort_desc [mkRow 5 (1 # 2) 1 2; mkRow 3 (1 # 1) 1 1; mkRow 4 (1 # 2) 1 2] =
  [mkRow 3 (1 # 1) 1 1; mkRow 5 (1 # 2) 1 2; mkRow 4 (1 # 2) 1 2].
Proof. vm_compute. reflexivity. Qed.
