(* ===== verification/Users.v ===== *)
(** * Users: the users table, its mapper and the user service

    Models [src/src/datasource/model/user_entity.py],
    [src/src/datasource/mapper/user_mapper.py],
    [src/src/datasource/repository/user_repository.py] and
    [src/src/domain/service/user_service.py].

    The users table is the list of its rows in insertion order; a
    query [.filter(...).first()] is the first matching row.  The
    SHA-256 digest of [_hash_password] is a function [hash] taken as a
    section variable: the proofs use only that it is a function, and,
    where stated, that it has no collision on the passwords compared. *)

From Stdlib Require Import ZArith String Lia.
From stdpp Require Import base list option decidable.
From S2P Require Import Prelude Game.

(** ** Data *)

(** [domain/model/users.py]: [User(user_id, login, password)], the
    password being the stored digest. *)
Record User := mkUser {
  user_id : uuid;
  login : string;
  password : string
}.

(** [UserEntity]: the row of table [users]. *)
Record UserEntity := mkUserEntity {
  ue_user_id : uuid;
  ue_login : string;
  ue_password : string
}.

(** [SignUpRequest(login, password)] of the sign-up form. *)
Record SignUpRequest := mkSignUpRequest {
  su_login : string;
  su_password : string
}.

Module UserMapper.
Definition to_domain (entity : UserEntity) : User :=
  mkUser (ue_user_id entity) (ue_login entity) (ue_password entity).

Definition to_entity (user : User) : UserEntity :=
  mkUserEntity (user_id user) (login user) (password user).
End UserMapper.

(** ** The repository *)

Abbreviation user_table := (list UserEntity).

(** [session.add(user); session.commit(); return user]: a new row. *)
Definition repo_save (user : UserEntity) (t : user_table) : UserEntity * user_table :=
  (user, t ++ [user]).

(** [query(UserEntity).filter(UserEntity.login == login).first()]. *)
Definition repo_find_by_login (lg : string) (t : user_table) : option UserEntity :=
  List.find (fun e => String.eqb (ue_login e) lg) t.

(** [query(UserEntity).filter(UserEntity.user_id == user_id).first()]. *)
Definition repo_find_by_id (uid : uuid) (t : user_table) : option UserEntity :=
  List.find (fun e => (ue_user_id e =? uid)%N) t.

(** ** The user service *)

(** [create_user] raises [ValueError] when the login is taken. *)
Inductive UserError := LoginAlreadyExists (lg : string).

Section UserService.
(** [hashlib.sha256(password.encode("utf-8")).hexdigest()]. *)
Variable hash : string -> string.

(** [create_user] (lines 16-31); [new_id] is the [uuid4()] default of
    the [user_id] column, drawn when the row is flushed. *)
Definition create_user (new_id : uuid) (req : SignUpRequest)
    : stE user_table UserError User :=
  fun t =>
    match repo_find_by_login (su_login req) t with
    | Some _ => (inl (LoginAlreadyExists (su_login req)), t)
    | None =>
        let user_entity := mkUserEntity new_id (su_login req) (hash (su_password req)) in
        let '(saved_entity, t') := repo_save user_entity t in
        (inr (UserMapper.to_domain saved_entity), t')
    end.

(** [find_by_login] and [find_by_id] (lines 33-39). *)
Definition find_by_login (lg : string) (t : user_table) : option User :=
  UserMapper.to_domain <$> repo_find_by_login lg t.

Definition find_by_id (uid : uuid) (t : user_table) : option User :=
  UserMapper.to_domain <$> repo_find_by_id uid t.

(** [verify_password] (lines 41-43). *)
Definition verify_password (user : User) (pw : string) : bool :=
  String.eqb (password user) (hash pw).
End UserService.

(** ** Properties of the users table *)

Lemma string_eqb_iff a b : String.eqb a b = true <-> a = b.
Proof. apply String.eqb_eq. Qed.

Lemma N_eqb_iff a b : (a =? b)%N = true <-> a = b.
Proof. apply N.eqb_eq. Qed.

Lemma repo_find_by_login_None lg t :
  repo_find_by_login lg t = None <-> forall e, In e t -> ue_login e <> lg.
Proof. exact (find_key_None ue_login String.eqb string_eqb_iff t lg). Qed.

Lemma repo_find_by_id_None uid t :
  repo_find_by_id uid t = None <-> forall e, In e t -> ue_user_id e <> uid.
Proof. exact (find_key_None ue_user_id N.eqb N_eqb_iff t uid). Qed.

Lemma repo_find_by_login_Some lg t e :
  repo_find_by_login lg t = Some e -> In e t /\ ue_login e = lg.
Proof. exact (find_key_Some ue_login String.eqb string_eqb_iff t lg e). Qed.

Lemma repo_find_by_id_Some uid t e :
  repo_find_by_id uid t = Some e -> In e t /\ ue_user_id e = uid.
Proof. exact (find_key_Some ue_user_id N.eqb N_eqb_iff t uid e). Qed.

Section UserServiceFacts.
Variable hash : string -> string.

(** The row [create_user] adds. *)
Definition new_row (new_id : uuid) (req : SignUpRequest) : UserEntity :=
  mkUserEntity new_id (su_login req) (hash (su_password req)).

Lemma create_user_taken new_id req t e :
  repo_find_by_login (su_login req) t = Some e ->
  create_user hash new_id req t = (inl (LoginAlreadyExists (su_login req)), t).
Proof. intros H. unfold create_user. by rewrite H. Qed.

Lemma create_user_fresh new_id req t :
  repo_find_by_login (su_login req) t = None ->
  create_user hash new_id req t =
  (inr (UserMapper.to_domain (new_row new_id req)), t ++ [new_row new_id req]).
Proof. intros H. unfold create_user. by rewrite H. Qed.

Lemma create_user_inr new_id req t u t' :
  create_user hash new_id req t = (inr u, t') ->
  repo_find_by_login (su_login req) t = None /\
  u = UserMapper.to_domain (new_row new_id req) /\ t' = t ++ [new_row new_id req].
Proof.
  destruct (repo_find_by_login (su_login req) t) as [e|] eqn:E.
  - by rewrite (create_user_taken _ _ _ e E).
  - rewrite (create_user_fresh _ _ _ E). by intros [= <- <-].
Qed.

(** The tables the application builds: sign-ups that succeed, each
    with a fresh [uuid4()]. *)
Inductive users_reachable : user_table -> Prop :=
  | users_empty : users_reachable []
  | users_sign_up t new_id req u t' :
      users_reachable t -> repo_find_by_id new_id t = None ->
      create_user hash new_id req t = (inr u, t') -> users_reachable t'.

Definition users_inv (t : user_table) : Prop :=
  List.NoDup (map ue_login t) /\ List.NoDup (map ue_user_id t).

Lemma reachable_users_inv t : users_reachable t -> users_inv t.
Proof.
  induction 1 as [|t new_id req u t' _ [Hl Hi] Hid Hc]; [split; constructor|].
  apply create_user_inr in Hc as (Hlg & _ & ->).
  rewrite repo_find_by_login_None in Hlg. rewrite repo_find_by_id_None in Hid.
  split; apply NoDup_map_snoc; auto.
Qed.

(** A registered user is the one [find_by_login] finds. *)
Lemma reachable_find_by_login t e :
  users_reachable t -> In e t -> repo_find_by_login (ue_login e) t = Some e.
Proof.
  intros Hr Hin. destruct (reachable_users_inv t Hr) as [Hl _].
  exact (find_key_In ue_login String.eqb string_eqb_iff t e Hl Hin).
Qed.

Lemma reachable_find_by_id t e :
  users_reachable t -> In e t -> repo_find_by_id (ue_user_id e) t = Some e.
Proof.
  intros Hr Hin. destruct (reachable_users_inv t Hr) as [_ Hi].
  exact (find_key_In ue_user_id N.eqb N_eqb_iff t e Hi Hin).
Qed.

(** C19: in every table built by sign-ups, no two users share a login and
    no two share an id: [create_user] refuses a taken login. *)
Theorem users_reachable_inv t : users_reachable t -> users_inv t.
Proof. apply reachable_users_inv. Qed.
End UserServiceFacts.

(** ** Two sign-ups at once

    [create_user] makes two round trips to the database: the
    [find_by_login] query, then the insert of [save].  Requests are
    served concurrently against the shared table, and the [users] table
    has no unique constraint on [login] (user_entity.py line 11), so
    the check and the insert of two requests may interleave.  A request
    is a thread at one of three points; a schedule lists the threads
    that take a step, in order. *)

Section Concurrent.
Variable hash : string -> string.

Inductive SignUpThread :=
  | Pending (new_id : uuid) (req : SignUpRequest)
  | Checked (new_id : uuid) (req : SignUpRequest) (taken : bool)
  | Finished (ok : bool).

(** One round trip of a request. *)
Definition thread_step (th : SignUpThread) (t : user_table) : SignUpThread * user_table :=
  match th with
  | Pending new_id req =>
      (Checked new_id req (bool_decide (is_Some (repo_find_by_login (su_login req) t))), t)
  | Checked new_id req taken =>
      if taken then (Finished false, t) else (Finished true, t ++ [new_row hash new_id req])
  | Finished ok => (Finished ok, t)
  end.

(** Run a schedule: each entry is the index of the thread that steps. *)
Definition run_schedule (sched : list nat) (ths : list SignUpThread) (t : user_table)
    : list SignUpThread * user_table :=
  fold_left (fun '(ths, t) i =>
               match ths !! i with
               | Some th => let '(th', t') := thread_step th t in (<[i := th']> ths, t')
               | None => (ths, t)
               end) sched (ths, t).


(** C23: the check-then-insert of [create_user] is not atomic.  Two
    requests for the same free login whose checks both run before
    either insert both succeed, and the table then holds two users with
    that login, which breaks the uniqueness of logins. *)
Theorem sign_up_race t id1 id2 req1 req2 :
  su_login req1 = su_login req2 -> repo_find_by_login (su_login req1) t = None ->
  run_schedule [0; 1; 0; 1]%nat [Pending id1 req1; Pending id2 req2] t =
    ([Finished true; Finished true], t ++ [new_row hash id1 req1] ++ [new_row hash id2 req2]) /\
  ~ List.NoDup (map ue_login (t ++ [new_row hash id1 req1] ++ [new_row hash id2 req2])).
Proof.
  intros Heq Hfree. split.
  - unfold run_schedule. simpl. rewrite Hfree, <- Heq, Hfree. simpl.
    by rewrite <- app_assoc.
  - rewrite map_app. intros Hnd. apply NoDup_app_remove_l in Hnd.
    simpl in Hnd. rewrite Heq in Hnd. apply NoDup_cons_iff in Hnd as [Hn _]. apply Hn. by left.
Qed.
End Concurrent.

(** ** Witnesses: two sign-ups *)

Definition demo_hash (pw : string) : string := ("sha256:" ++ pw)%string.
Definition alice : SignUpRequest := mkSignUpRequest "alice" "secret".
Definition bob : SignUpRequest := mkSignUpRequest "bob" "hunter2".
Definition demo_users : user_table := [new_row demo_hash 1 alice; new_row demo_hash 2 bob].

Lemma demo_users_reachable : users_reachable demo_hash demo_users.
Proof.
  eapply (users_sign_up _ [new_row demo_hash 1 alice] 2 bob); [|reflexivity|reflexivity].
  eapply (users_sign_up _ [] 1 alice); [constructor|reflexivity|reflexivity].
Qed.

Lemma users_reachable_inv_witness :
  users_reachable demo_hash demo_users /\ users_inv demo_users.
Proof.
  split; [exact demo_users_reachable|exact (users_reachable_inv demo_hash demo_users demo_users_reachable)].
Defined.

(** Alice signs up twice at once, from two browsers. *)
Lemma sign_up_race_witness :
  su_login alice = su_login (mkSignUpRequest "alice" "other") /\
  repo_find_by_login (su_login alice) [] = None /\
  run_schedule demo_hash [0; 1; 0; 1]%nat [Pending 1 alice; Pending 2 (mkSignUpRequest "alice" "other")] []
    = ([Finished true; Finished true],
       [] ++ [new_row demo_hash 1 alice] ++ [new_row demo_hash 2 (mkSignUpRequest "alice" "other")]) /\
  ~ List.NoDup (map ue_login ([] ++ [new_row demo_hash 1 alice] ++
                               [new_row demo_hash 2 (mkSignUpRequest "alice" "other")])).
Proof.
  assert (H1 : su_login alice = su_login (mkSignUpRequest "alice" "other")) by reflexivity.
  assert (H2 : repo_find_by_login (su_login alice) [] = None) by reflexivity.
  split; [exact H1|]. split; [exact H2|].
  exact (sign_up_race demo_hash [] 1 2 alice (mkSignUpRequest "alice" "other") H1 H2).
Defined.
