(* ===== verification/Auth.v ===== *)
(** * Authentication: tokens, the auth service and the bearer check

    Models [src/src/domain/service/jwt_provider.py],
    [src/src/domain/service/auth_service.py] and
    [src/src/web/module/user_authenticator.py].

    [flask_jwt_extended] signs and checks the tokens.  Its contract is
    the class [JwtCodec] with the laws [JwtCodecLaws]: a token it made
    decodes to its claims from the time it was issued ([nbf] = [iat])
    until it expires ([exp], checked by PyJWT as [now < exp]), and a
    token that decodes carries claims valid at that time.  [str(uuid)]
    and [UUID(s)] are the class [UuidText].  Times are integer seconds
    ([datetime.now()]), passed to every operation as [now].  A token
    decodes, when it decodes, to the claims it was made from: the
    signature covers the payload. *)

From Stdlib Require Import ZArith String Ascii Lia.
From stdpp Require Import base list option decidable.
From S2P Require Import Prelude Game Users.

Local Open Scope Z_scope.

(** ** The token library *)

(** The [type] claim of flask_jwt_extended. *)
Inductive TokenType := AccessToken | RefreshToken.

#[global] Instance TokenType_eq_dec : EqDecision TokenType.
Proof. solve_decision. Defined.

(** The claims a token carries: [sub] (the identity), [type], and the
    times [iat] (also [nbf]) and [exp]. *)
Record Claims := mkClaims {
  sub : string;
  token_type : TokenType;
  iat : Z;
  exp : Z
}.

(** [create_access_token]/[create_refresh_token] and [decode_token]
    (which raises on a bad signature, an expired or immature token: the
    [None] of [decode_token]). *)
Class JwtCodec := {
  encode_token : Claims -> string;
  decode_token : Z -> string -> option Claims
}.

Class JwtCodecLaws `{!JwtCodec} := {
  decode_encode now c : iat c <= now < exp c -> decode_token now (encode_token c) = Some c;
  decode_valid now tok c : decode_token now tok = Some c -> iat c <= now < exp c;
  decode_encode_inv now c c' : decode_token now (encode_token c) = Some c' -> c' = c;
  encode_nonempty c : encode_token c <> ""%string
}.

(** [str(uuid)] and [UUID(s)] (which raises [ValueError]: [None]). *)
Class UuidText := {
  uuid_str : uuid -> string;
  parse_uuid : string -> option uuid
}.

Class UuidTextLaws `{!UuidText} := {
  parse_uuid_str u : parse_uuid (uuid_str u) = Some u;
  uuid_str_nonempty u : uuid_str u <> ""%string
}.

(** ** [JwtProvider] *)

(** The two lifetimes, in seconds. *)
Record JwtProvider := mkJwtProvider {
  access_token_expires : Z;
  refresh_token_expires : Z
}.

(** [timedelta(minutes=15)] and [timedelta(days=30)]. *)
Definition default_jwt_provider : JwtProvider := mkJwtProvider (15 * 60) (30 * 24 * 3600).

Section Provider.
Context `{!JwtCodec} `{!UuidText} (jp : JwtProvider).

Definition generate_access_token (now : Z) (user : User) : string :=
  encode_token (mkClaims (uuid_str (user_id user)) AccessToken now
                  (now + access_token_expires jp)).

Definition generate_refresh_token (now : Z) (user : User) : string :=
  encode_token (mkClaims (uuid_str (user_id user)) RefreshToken now
                  (now + refresh_token_expires jp)).

(** [decoded.get("type") != "access"] and the [except]. *)
Definition validate_token_type (ty : TokenType) (now : Z) (token : string) : bool :=
  match decode_token now token with
  | Some decoded => bool_decide (token_type decoded = ty)
  | None => false
  end.

Definition validate_access_token := validate_token_type AccessToken.
Definition validate_refresh_token := validate_token_type RefreshToken.

(** [identity = decoded.get("sub"); if identity: return UUID(identity)]. *)
Definition get_uuid_from_token (now : Z) (token : string) : option uuid :=
  match decode_token now token with
  | Some decoded => if String.eqb (sub decoded) "" then None else parse_uuid (sub decoded)
  | None => None
  end.
End Provider.

(** ** [AuthService] *)

(** [JwtResponseDto(type, access_token, refresh_token)]. *)
Record JwtResponse := mkJwtResponse {
  resp_type : string;
  access_token : string;
  refresh_token : string
}.

Section AuthService.
Context `{!JwtCodec} `{!UuidText} (jp : JwtProvider) (hash : string -> string).

(** [register] (lines 15-20): [create_user], its [ValueError] caught. *)
Definition register (new_id : uuid) (req : SignUpRequest) (t : user_table) : bool * user_table :=
  match create_user hash new_id req t with
  | (inl _, t') => (false, t')
  | (inr _, t') => (true, t')
  end.

(** [authenticate] (lines 22-39). *)
Definition authenticate (now : Z) (t : user_table) (lg pw : string) : option JwtResponse :=
  match find_by_login lg t with
  | None => None
  | Some user =>
      if negb (verify_password hash user pw) then None
      else Some (mkJwtResponse "Bearer" (generate_access_token jp now user)
                   (generate_refresh_token jp now user))
  end.

(** The checks shared by the two refresh operations (lines 41-56 and
    64-79): a valid refresh token naming an existing user. *)
Definition refresh_user (now : Z) (t : user_table) (token : string) : option User :=
  if negb (validate_refresh_token now token) then None
  else match get_uuid_from_token now token with
       | None => None
       | Some uid => find_by_id uid t
       end.

(** [refresh_access_token] (lines 41-62): a new access token, the same
    refresh token. *)
Definition refresh_access_token (now : Z) (t : user_table) (token : string) : option JwtResponse :=
  match refresh_user now t token with
  | None => None
  | Some user => Some (mkJwtResponse "Bearer" (generate_access_token jp now user) token)
  end.

(** [refresh_refresh_token] (lines 64-87): both tokens new. *)
Definition refresh_refresh_token (now : Z) (t : user_table) (token : string) : option JwtResponse :=
  match refresh_user now t token with
  | None => None
  | Some user => Some (mkJwtResponse "Bearer" (generate_access_token jp now user)
                         (generate_refresh_token jp now user))
  end.

(** [authenticate_by_token] (lines 89-98). *)
Definition authenticate_by_token (now : Z) (token : string) : option uuid :=
  if negb (validate_access_token now token) then None
  else get_uuid_from_token now token.

(** ** [UserAuthenticator.require_auth] *)

(** The 401 answers of the decorator, or the user id it stores in
    [request.user_id] before calling the view. *)
Inductive AuthCheck :=
  | Unauthorized (error message : string)
  | Authorized (user_id : uuid).

(** [require_auth] (user_authenticator.py lines 10-63): the header
    [Authorization], [None] when absent. *)
Definition require_auth (now : Z) (auth_header : option string) : AuthCheck :=
  match auth_header with
  | None => Unauthorized "Authorization required" "Please provide Authorization header"
  | Some h =>
      if String.eqb h "" then
        Unauthorized "Authorization required" "Please provide Authorization header"
      else if negb (String.prefix "Bearer " h) then
        Unauthorized "Invalid authorization format"
          "Authorization header must be in format: Bearer <token>"
      else
        let token := String.substring 7 (String.length h - 7) h in
        if String.eqb token "" then Unauthorized "Token missing" "Authorization token is missing"
        else match authenticate_by_token now token with
             | None => Unauthorized "Unauthorized" "Invalid or expired token"
             | Some uid => Authorized uid
             end
  end.
End AuthService.

(** ** Tokens made by the provider *)

Section TokenFacts.
Context `{!JwtCodec} `{!JwtCodecLaws} `{!UuidText} `{!UuidTextLaws}.

Definition in_window (c : Claims) (now : Z) : bool := (iat c <=? now) && (now <? exp c).

Lemma in_window_true c now : iat c <= now < exp c -> in_window c now = true.
Proof. intros. unfold in_window. apply andb_true_iff. split; [apply Z.leb_le|apply Z.ltb_lt]; lia. Qed.

(** A token made from [c] decodes exactly while [c] is valid. *)
Lemma decode_encoded now c :
  decode_token now (encode_token c) = if in_window c now then Some c else None.
Proof.
  unfold in_window. destruct (Z.leb_spec (iat c) now), (Z.ltb_spec now (exp c)); simpl;
    try (apply decode_encode; lia).
  all: destruct (decode_token now (encode_token c)) as [c'|] eqn:E; [|done].
  all: pose proof (decode_encode_inv _ _ _ E) as ->; apply decode_valid in E; lia.
Qed.

Lemma get_uuid_encoded now u ty t0 t1 :
  get_uuid_from_token now (encode_token (mkClaims (uuid_str u) ty t0 t1)) =
  if in_window (mkClaims (uuid_str u) ty t0 t1) now then Some u else None.
Proof.
  unfold get_uuid_from_token. rewrite decode_encoded.
  destruct (in_window _ _); [|done]. simpl.
  destruct (String.eqb_spec (uuid_str u) ""); [by destruct (uuid_str_nonempty u)|].
  apply parse_uuid_str.
Qed.

Lemma validate_encoded ty now c :
  validate_token_type ty now (encode_token c) = in_window c now && bool_decide (token_type c = ty).
Proof. unfold validate_token_type. rewrite decode_encoded. by destruct (in_window c now). Qed.
End TokenFacts.

(** ** The bearer header *)

Lemma substring_0_length s : String.substring 0 (String.length s) s = s.
Proof. induction s as [|a s IH]; simpl; [done|]. by rewrite IH. Qed.

(** [auth_header[7:]] of ["Bearer " + token]. *)
Lemma bearer_token tok :
  String.substring 7 (String.length ("Bearer " ++ tok)%string - 7) ("Bearer " ++ tok)%string = tok.
Proof. simpl. rewrite Nat.sub_0_r. apply substring_0_length. Qed.

Lemma require_auth_bearer `{!JwtCodec} `{!UuidText} (jp : JwtProvider) now tok :
  tok <> ""%string ->
  require_auth now (Some ("Bearer " ++ tok)%string) =
  match authenticate_by_token now tok with
  | None => Unauthorized "Unauthorized"%string "Invalid or expired token"%string
  | Some uid => Authorized uid
  end.
Proof.
  intros Htok. unfold require_auth. rewrite bearer_token.
  assert (Hp : String.prefix "Bearer "%string ("Bearer " ++ tok)%string = true).
  { simpl. by destruct tok. }
  rewrite Hp. simpl. destruct (String.eqb_spec tok ""); [done|]. reflexivity.
Qed.

(** ** What the auth service guarantees *)

Section AuthFacts.
Context `{!JwtCodec} `{!JwtCodecLaws} `{!UuidText} `{!UuidTextLaws}.
Context (jp : JwtProvider) (hash : string -> string).

Lemma authenticate_by_token_encoded now u ty t0 t1 :
  authenticate_by_token now (encode_token (mkClaims (uuid_str u) ty t0 t1)) =
  if in_window (mkClaims (uuid_str u) ty t0 t1) now && bool_decide (ty = AccessToken)
  then Some u else None.
Proof.
  unfold authenticate_by_token, validate_access_token. rewrite validate_encoded, get_uuid_encoded.
  simpl. by destruct (in_window _ _), (bool_decide (ty = AccessToken)).
Qed.

Lemma refresh_user_encoded now t u ty t0 t1 :
  refresh_user now t (encode_token (mkClaims (uuid_str u) ty t0 t1)) =
  if in_window (mkClaims (uuid_str u) ty t0 t1) now && bool_decide (ty = RefreshToken)
  then find_by_id u t else None.
Proof.
  unfold refresh_user, validate_refresh_token. rewrite validate_encoded, get_uuid_encoded.
  simpl. by destruct (in_window _ _), (bool_decide (ty = RefreshToken)).
Qed.

(** C22: an access token made at [t0] identifies its user from [t0] until
    [t0 + access_token_expires] (excluded), and nothing outside that
    window. *)
Theorem access_token_lifetime now t0 u :
  authenticate_by_token now (generate_access_token jp t0 u) =
  if (t0 <=? now) && (now <? t0 + access_token_expires jp) then Some (user_id u) else None.
Proof.
  unfold generate_access_token. rewrite authenticate_by_token_encoded.
  by rewrite bool_decide_eq_true_2, andb_true_r.
Qed.

(** C21: the two kinds of token are not interchangeable: a refresh token
    never authenticates a request, and an access token never obtains
    new tokens. *)
Theorem tokens_not_interchangeable now t0 t u :
  authenticate_by_token now (generate_refresh_token jp t0 u) = None /\
  refresh_access_token jp now t (generate_access_token jp t0 u) = None /\
  refresh_refresh_token jp now t (generate_access_token jp t0 u) = None.
Proof.
  unfold generate_refresh_token, generate_access_token, refresh_access_token,
    refresh_refresh_token.
  rewrite authenticate_by_token_encoded, refresh_user_encoded.
  rewrite !andb_false_r. done.
Qed.
End AuthFacts.

Section AuthUsers.
Context `{!JwtCodec} `{!JwtCodecLaws} `{!UuidText} `{!UuidTextLaws}.
Context (jp : JwtProvider) (hash : string -> string).

(** The Bearer pair [authenticate] issues for [user] at [now]. *)
Definition bearer_pair (now : Z) (user : User) : JwtResponse :=
  mkJwtResponse "Bearer" (generate_access_token jp now user) (generate_refresh_token jp now user).

(** C20: on a table built by sign-ups, logging in with the login of a
    registered user returns the Bearer pair of that user exactly when
    the digest of the given password is the stored one. *)
Theorem authenticate_spec now t e pw :
  users_reachable hash t -> In e t ->
  authenticate jp hash now t (ue_login e) pw =
  if String.eqb (ue_password e) (hash pw) then Some (bearer_pair now (UserMapper.to_domain e))
  else None.
Proof.
  intros Hr Hin. unfold authenticate, find_by_login.
  rewrite (reachable_find_by_login hash t e Hr Hin). simpl.
  unfold verify_password. simpl. by destruct (String.eqb _ _).
Qed.

Lemma authenticate_unknown now t lg pw :
  (forall e, In e t -> ue_login e <> lg) -> authenticate jp hash now t lg pw = None.
Proof.
  intros Hno. unfold authenticate, find_by_login.
  by rewrite (proj2 (repo_find_by_login_None lg t) Hno).
Qed.

(** C25: [register] refuses exactly a login already in the table, and
    then leaves the table as it was; otherwise it appends one row, with
    the fresh id, the login and the digest of the password. *)
Theorem register_spec new_id req t :
  register hash new_id req t =
  if existsb (fun e => String.eqb (ue_login e) (su_login req)) t then (false, t)
  else (true, t ++ [new_row hash new_id req]).
Proof.
  unfold register. destruct (repo_find_by_login (su_login req) t) as [e|] eqn:E.
  - rewrite (create_user_taken hash new_id req t e E).
    apply repo_find_by_login_Some in E as [Hin Hl].
    replace (existsb _ t) with true; [done|]. symmetry. apply existsb_exists.
    exists e. split; [done|]. by apply String.eqb_eq.
  - rewrite (create_user_fresh hash new_id req t E).
    rewrite repo_find_by_login_None in E.
    replace (existsb _ t) with false; [done|]. symmetry. apply not_true_iff_false.
    intros (e & Hin & Hl%String.eqb_eq)%existsb_exists. by apply (E e).
Qed.

(** C26: refreshing with a refresh token made at [t0] for a registered
    user, while it is valid, returns a new pair for the same user: its
    access token authenticates that user, its refresh token refreshes
    again until [now + refresh_token_expires]. *)
Theorem refresh_keeps_identity now t0 t e :
  users_reachable hash t -> In e t ->
  t0 <= now < t0 + refresh_token_expires jp -> 0 < access_token_expires jp ->
  exists r, refresh_refresh_token jp now t (generate_refresh_token jp t0 (UserMapper.to_domain e))
              = Some r /\
    authenticate_by_token now (access_token r) = Some (ue_user_id e) /\
    (forall now', now <= now' < now + refresh_token_expires jp ->
       refresh_user now' t (refresh_token r) = Some (UserMapper.to_domain e)).
Proof.
  intros Hr Hin Hw Ha.
  assert (Hid : find_by_id (ue_user_id e) t = Some (UserMapper.to_domain e)).
  { unfold find_by_id. by rewrite (reachable_find_by_id hash t e Hr Hin). }
  unfold refresh_refresh_token, generate_refresh_token.
  rewrite refresh_user_encoded, in_window_true by (simpl; lia). simpl. rewrite Hid.
  eexists. split; [reflexivity|]. simpl. split.
  - unfold generate_access_token.
    rewrite authenticate_by_token_encoded, in_window_true by (simpl; lia). done.
  - intros now' Hnow'. rewrite refresh_user_encoded, in_window_true by (simpl; lia). done.
Qed.
End AuthUsers.

(** ** A codec satisfying the laws

    The laws above are satisfiable: the codec below writes the claims
    as plain text (no signature), which is enough to run the theorems
    on concrete requests.  It is not a model of flask_jwt_extended's
    format. *)

Module RefCodec.
Local Open Scope string_scope.

Fixpoint unary (n : nat) : string :=
  match n with
  | O => String "0"%char EmptyString
  | S n' => String "1"%char (unary n')
  end.

Fixpoint read_unary (s : string) : option (nat * string) :=
  match s with
  | EmptyString => None
  | String c s' =>
      if Ascii.eqb c "1"%char then (fun '(n, r) => (S n, r)) <$> read_unary s'
      else if Ascii.eqb c "0"%char then Some (O, s') else None
  end.

Definition enc_Z (z : Z) : string :=
  String (if (z <? 0)%Z then "-"%char else "+"%char) (unary (Z.abs_nat z)).

Definition dec_Z (s : string) : option (Z * string) :=
  match s with
  | String c s' =>
      (fun '(n, r) => ((if Ascii.eqb c "-"%char then - Z.of_nat n else Z.of_nat n)%Z, r)) <$> read_unary s'
  | EmptyString => None
  end.

Definition encode (c : Claims) : string :=
  String (match token_type c with AccessToken => "A"%char | RefreshToken => "R"%char end)
    (enc_Z (iat c) ++ enc_Z (exp c) ++ sub c).

Definition parse (s : string) : option Claims :=
  match s with
  | String t s1 =>
      ty ← (if Ascii.eqb t "A"%char then Some AccessToken
            else if Ascii.eqb t "R"%char then Some RefreshToken else None);
      '(i, s2) ← dec_Z s1;
      '(e, s3) ← dec_Z s2;
      Some (mkClaims s3 ty i e)
  | EmptyString => None
  end.

Lemma read_unary_app n r : read_unary (unary n ++ r) = Some (n, r).
Proof. induction n as [|n IH]; simpl; [done|]. by rewrite IH. Qed.

Lemma dec_Z_app z r : dec_Z (enc_Z z ++ r) = Some (z, r).
Proof.
  unfold enc_Z, dec_Z. simpl. rewrite read_unary_app. simpl.
  destruct (Z.ltb_spec z 0); simpl; f_equal; f_equal; lia.
Qed.

Lemma parse_encode c : parse (encode c) = Some c.
Proof.
  destruct c as [s ty i e].
  destruct ty; unfold encode, parse; cbn -[dec_Z enc_Z]; rewrite dec_Z_app;
    cbn -[dec_Z enc_Z]; rewrite dec_Z_app; reflexivity.
Qed.

Definition codec : JwtCodec := {|
  encode_token := encode;
  decode_token now tok :=
    match parse tok with
    | Some c => if in_window c now then Some c else None
    | None => None
    end
|}.

Lemma codec_laws : @JwtCodecLaws codec.
Proof.
  split; cbn -[parse encode in_window].
  - intros now c Hw. rewrite parse_encode. by rewrite in_window_true.
  - intros now tok c. destruct (parse tok) as [c'|]; [|done].
    destruct (in_window c' now) eqn:E; [|done]. intros [= <-].
    unfold in_window in E. apply andb_true_iff in E as [?%Z.leb_le ?%Z.ltb_lt]. lia.
  - intros now c c'. rewrite parse_encode. by destruct (in_window c now); intros [= <-].
  - intros c. unfold encode. done.
Qed.

Lemma append_empty s : s ++ "" = s.
Proof. induction s as [|a s IH]; simpl; [done|]. by rewrite IH. Qed.

Definition uuid_text : UuidText := {|
  uuid_str u := String "u"%char (unary (N.to_nat u));
  parse_uuid s :=
    match s with
    | String c r =>
        if Ascii.eqb c "u"%char then
          match read_unary r with Some (n, EmptyString) => Some (N.of_nat n) | _ => None end
        else None
    | EmptyString => None
    end
|}.

Lemma uuid_text_laws : @UuidTextLaws uuid_text.
Proof.
  split; simpl.
  - intros u. rewrite <- (append_empty (unary (N.to_nat u))), read_unary_app.
    by rewrite N2Nat.id.
  - done.
Qed.
End RefCodec.

(** ** Witnesses, with the codec above and the users of [Users.v] *)

Section Witnesses.
#[local] Existing Instances RefCodec.codec RefCodec.codec_laws RefCodec.uuid_text RefCodec.uuid_text_laws.

Definition alice_user : User := UserMapper.to_domain (new_row demo_hash 1 alice).

Lemma access_token_lifetime_witness :
  authenticate_by_token 1000 (generate_access_token default_jwt_provider 500 alice_user) = Some 1%N /\
  authenticate_by_token 1400 (generate_access_token default_jwt_provider 500 alice_user) = None.
Proof.
  rewrite !(access_token_lifetime default_jwt_provider _ 500 alice_user). split; reflexivity.
Defined.

Lemma tokens_not_interchangeable_witness :
  authenticate_by_token 1000 (generate_refresh_token default_jwt_provider 500 alice_user) = None /\
  refresh_access_token default_jwt_provider 1000 demo_users
    (generate_access_token default_jwt_provider 500 alice_user) = None /\
  refresh_refresh_token default_jwt_provider 1000 demo_users
    (generate_access_token default_jwt_provider 500 alice_user) = None.
Proof. exact (tokens_not_interchangeable default_jwt_provider 1000 500 demo_users alice_user). Defined.

Lemma authenticate_spec_witness :
  users_reachable demo_hash demo_users /\ In (new_row demo_hash 1 alice) demo_users /\
  authenticate default_jwt_provider demo_hash 1000 demo_users "alice" "secret"
    = Some (bearer_pair default_jwt_provider 1000 alice_user) /\
  authenticate default_jwt_provider demo_hash 1000 demo_users "alice" "guess" = None.
Proof.
  assert (Hin : In (new_row demo_hash 1 alice) demo_users) by (left; reflexivity).
  split; [exact demo_users_reachable|]. split; [exact Hin|].
  rewrite !(authenticate_spec default_jwt_provider demo_hash 1000 demo_users _ _
              demo_users_reachable Hin). split; reflexivity.
Defined.

Lemma refresh_keeps_identity_witness :
  users_reachable demo_hash demo_users /\ In (new_row demo_hash 1 alice) demo_users /\
  (500 <= 1000 < 500 + refresh_token_expires default_jwt_provider) /\
  0 < access_token_expires default_jwt_provider /\
  exists r, refresh_refresh_token default_jwt_provider 1000 demo_users
              (generate_refresh_token default_jwt_provider 500 alice_user) = Some r /\
    authenticate_by_token 1000 (access_token r) = Some 1%N.
Proof.
  assert (Hin : In (new_row demo_hash 1 alice) demo_users) by (left; reflexivity).
  assert (Hw : 500 <= 1000 < 500 + refresh_token_expires default_jwt_provider) by (simpl; lia).
  assert (Ha : 0 < access_token_expires default_jwt_provider) by (simpl; lia).
  refine (conj demo_users_reachable (conj Hin (conj Hw (conj Ha _)))).

  destruct (refresh_keeps_identity default_jwt_provider demo_hash 1000 500 demo_users _
              demo_users_reachable Hin Hw Ha) as (r & Hr & Hauth & _).
  exists r. split; [exact Hr|exact Hauth].
Defined.
End Witnesses.
