(* ===== verification/Controllers.v ===== *)
(** * The HTTP layer of authentication: [AuthController] and [UserController]

    Models [src/src/web/route/auth_controller.py] and
    [src/src/web/route/user_controller.py] over the services of
    [Users.v] and [Auth.v].  A request body is the value
    [request.get_json()] returns: [None] or a JSON value.  A response is
    the pair [(jsonify(body), status)].  Python's [not data],
    [key in data] and [data[key]] are written out for every kind of JSON
    value: [in] on a list tests membership, on a string a substring, and
    on a number raises [TypeError]; [data[key]] on anything but an
    object raises [TypeError], caught by the handler's
    [except Exception] (status 500).  A login or password that is not a
    JSON string fails in [_hash_password] or in the SQL query and ends
    in the same [except]. *)

From Stdlib Require Import ZArith QArith String Lia.
From stdpp Require Import base list option decidable.
From S2P Require Import Prelude Game Users Auth.

Local Open Scope Z_scope.
Local Open Scope string_scope.

(** ** JSON values and the Python operations on them *)

Inductive json :=
  | JNull
  | JBool (b : bool)
  | JInt (z : Z)
  | JNum (q : Q)            (* a float *)
  | JStr (s : string)
  | JArr (items : list json)
  | JObj (fields : list (string * json)).

(** [not data] is false exactly for a truthy value. *)
Definition py_truthy (j : json) : bool :=
  match j with
  | JNull => false
  | JBool b => b
  | JInt z => negb (Z.eqb z 0)
  | JNum q => negb (Qeq_bool q 0)
  | JStr s => negb (String.eqb s "")
  | JArr l => negb (bool_decide (l = []))
  | JObj f => negb (bool_decide (f = []))
  end.

(** [s in t] for strings: [s] occurs in [t]. *)
Fixpoint str_contains (s t : string) : bool :=
  String.prefix s t ||
  match t with
  | EmptyString => false
  | String _ t' => str_contains s t'
  end.

(** [key in data]; [None] is the [TypeError] of [in] on a number, a
    boolean or [None]. *)
Definition py_contains (key : string) (j : json) : option bool :=
  match j with
  | JObj f => Some (existsb (fun '(k, _) => String.eqb k key) f)
  | JArr l => Some (existsb (fun v => match v with JStr s => String.eqb s key | _ => false end) l)
  | JStr s => Some (str_contains key s)
  | _ => None
  end.

(** [data[key]] on an object: [json.loads] keeps the last of duplicate
    keys.  [None] on anything else is the [TypeError]. *)
Definition py_getitem (j : json) (key : string) : option json :=
  match j with
  | JObj f => snd <$> List.find (fun '(k, _) => String.eqb k key) (rev f)
  | _ => None
  end.

(** The outcome of [if not data or k1 not in data or ...: return 400]
    followed by [data[k1], ...]. *)
Inductive BodyRead :=
  | BodyMissing                  (* the 400 answer *)
  | BodyRaises                   (* [in] raised: the 500 answer *)
  | BodyFields (vals : list json).

Definition read_body (data : option json) (keys : list string) : BodyRead :=
  match data with
  | None => BodyMissing
  | Some j =>
      if negb (py_truthy j) then BodyMissing
      else
        match mapM (fun k => py_contains k j) keys with
        | None => BodyRaises
        | Some found =>
            if forallb id found then
              match mapM (py_getitem j) keys with
              | Some vals => BodyFields vals
              | None => BodyRaises
              end
            else BodyMissing
        end
  end.

(** [(jsonify(body), status)]. *)
Record Response := mkResponse {
  status : Z;
  body : json
}.

Definition error_response (st : Z) (msg : string) : Response :=
  mkResponse st (JObj [("error", JStr msg)]).

(** The [except Exception as e] of every handler; the text of [e] is
    not modelled. *)
Definition internal_error : Response := mkResponse 500 (JObj [("error", JStr "Error")]).

(** ** [AuthController] *)

Section AuthController.
Context `{!JwtCodec} `{!UuidText} (jp : JwtProvider) (hash : string -> string).

Definition sign_up_answer (st : Z) (success : bool) (msg : string) : Response :=
  mkResponse st (JObj [("success", JBool success); ("message", JStr msg)]).

(** [jwt_mapper.jwt_response_to_dict]. *)
Definition jwt_response_to_dict (r : JwtResponse) : json :=
  JObj [("type", JStr (resp_type r)); ("access_token", JStr (access_token r));
        ("refresh_token", JStr (refresh_token r))].

(** [register] (lines 37-72).  [new_id] is the [uuid4()] of the row. *)
Definition register_view (new_id : uuid) (data : option json) (t : user_table)
    : Response * user_table :=
  match read_body data ["login"; "password"] with
  | BodyMissing => (sign_up_answer 400 false "Login or password are required", t)
  | BodyFields [JStr lg; JStr pw] =>
      let '(success, t') := register hash new_id (mkSignUpRequest lg pw) t in
      if success then (sign_up_answer 200 true "User registered successfully", t')
      else (sign_up_answer 400 false "Login already exists", t')
  | _ => (internal_error, t)
  end.

(** [login] (lines 74-91).  A login or password that is not a string
    makes [authenticate] raise inside its own [try]: [None], 401. *)
Definition login_view (now : Z) (data : option json) (t : user_table) : Response :=
  match read_body data ["login"; "password"] with
  | BodyMissing => error_response 400 "Login and password are required"
  | BodyRaises => internal_error
  | BodyFields vals =>
      let result := match vals with
                    | [JStr lg; JStr pw] => authenticate jp hash now t lg pw
                    | _ => None
                    end in
      match result with
      | Some r => mkResponse 200 (jwt_response_to_dict r)
      | None => error_response 401 "Invalid credentials"
      end
  end.

(** [refresh_access] and [refresh] (lines 93-131): the same handler
    around [refresh_access_token] or [refresh_refresh_token].  A token
    that is not a string fails [decode_token]: [None], 401. *)
Definition refresh_view (op : Z -> user_table -> string -> option JwtResponse)
    (now : Z) (data : option json) (t : user_table) : Response :=
  match read_body data ["refresh_token"] with
  | BodyMissing => error_response 400 "Refresh token is required"
  | BodyRaises => internal_error
  | BodyFields vals =>
      let result := match vals with [JStr tok] => op now t tok | _ => None end in
      match result with
      | Some r => mkResponse 200 (jwt_response_to_dict r)
      | None => error_response 401 "Invalid or expired refresh token"
      end
  end.

Definition refresh_access_view := refresh_view (refresh_access_token jp).
Definition refresh_refresh_view := refresh_view (refresh_refresh_token jp).

(** The 401 answer of [require_auth]. *)
Definition unauthorized_response (error message : string) : Response :=
  mkResponse 401 (JObj [("error", JStr error); ("message", JStr message)]).

(** [get_me] and [_get_me_impl] (lines 133-147). *)
Definition get_me_view (now : Z) (auth_header : option string) (t : user_table) : Response :=
  match require_auth now auth_header with
  | Unauthorized e m => unauthorized_response e m
  | Authorized uid =>
      match find_by_id uid t with
      | Some user =>
          mkResponse 200 (JObj [("user_id", JStr (uuid_str (user_id user)));
                                ("login", JStr (login user))])
      | None => error_response 404 "User not found"
      end
  end.

(** [UserController.get_user_info] (user_controller.py lines 24-51). *)
Definition get_user_info_view (now : Z) (auth_header : option string) (user_id_text : string)
    (t : user_table) : Response :=
  match require_auth now auth_header with
  | Unauthorized e m => unauthorized_response e m
  | Authorized _ =>
      match parse_uuid user_id_text with
      | None => error_response 400 "Invalid user_id format"
      | Some uid =>
          match find_by_id uid t with
          | Some user =>
              mkResponse 200 (JObj [("user_id", JStr (uuid_str (user_id user)));
                                    ("login", JStr (login user))])
          | None => error_response 404 "User not found"
          end
      end
  end.
End AuthController.

(** ** Sign-up, log-in and [/auth/me] *)

(** The body [{"login": lg, "password": pw}]. *)
Definition credentials (lg pw : string) : json := JObj [("login", JStr lg); ("password", JStr pw)].

Lemma read_credentials lg pw :
  read_body (Some (credentials lg pw)) ["login"; "password"] = BodyFields [JStr lg; JStr pw].
Proof. reflexivity. Qed.

Section EndToEnd.
Context `{!JwtCodec} `{!JwtCodecLaws} `{!UuidText} `{!UuidTextLaws}.
Context (jp : JwtProvider) (hash : string -> string).

(** C18: the three endpoints compose.  On a table built by sign-ups,
    [POST /auth/register] with a free login and a fresh id answers 200;
    [POST /auth/login] with the same credentials then answers 200 with a
    Bearer pair; and [GET /auth/me] with [Authorization: Bearer] and the
    access token answers 200 with the new user's id and login for as
    long as the token is valid. *)
Theorem sign_up_login_me now t new_id lg pw :
  users_reachable hash t -> repo_find_by_id new_id t = None -> repo_find_by_login lg t = None ->
  0 < access_token_expires jp ->
  exists t1 r,
    register_view hash new_id (Some (credentials lg pw)) t =
      (sign_up_answer 200 true "User registered successfully", t1) /\
    login_view jp hash now (Some (credentials lg pw)) t1 = mkResponse 200 (jwt_response_to_dict r) /\
    forall now', now <= now' < now + access_token_expires jp ->
      get_me_view now' (Some ("Bearer " ++ access_token r)) t1 =
      mkResponse 200 (JObj [("user_id", JStr (uuid_str new_id)); ("login", JStr lg)]).
Proof.
  intros Hr Hid Hlg Ha. set (req := mkSignUpRequest lg pw).
  assert (Hc : create_user hash new_id req t =
               (inr (UserMapper.to_domain (new_row hash new_id req)), app t [new_row hash new_id req]))
    by (apply create_user_fresh; exact Hlg).
  set (t1 := app t [new_row hash new_id req]).
  assert (Hr1 : users_reachable hash t1) by (eapply users_sign_up; eauto).
  assert (Hin : In (new_row hash new_id req) t1) by (apply in_or_app; simpl; auto).
  set (user := UserMapper.to_domain (new_row hash new_id req)).
  exists t1, (mkJwtResponse "Bearer" (generate_access_token jp now user)
                (generate_refresh_token jp now user)).
  split_and!.
  - unfold register_view. rewrite read_credentials. unfold register. fold req. by rewrite Hc.
  - unfold login_view. rewrite read_credentials. unfold authenticate, find_by_login.
    pose proof (reachable_find_by_login hash t1 _ Hr1 Hin) as Hf. simpl in Hf. rewrite Hf. simpl.
    unfold verify_password. simpl. by rewrite String.eqb_refl.
  - intros now' Hnow. unfold get_me_view. simpl access_token.
    rewrite (require_auth_bearer jp) by apply encode_nonempty.
    unfold generate_access_token. rewrite authenticate_by_token_encoded, in_window_true
      by (simpl; lia).
    pose proof (reachable_find_by_id hash t1 _ Hr1 Hin) as Hf. simpl in Hf.
    simpl. unfold find_by_id. rewrite Hf. reflexivity.
Qed.
End EndToEnd.

(** ** Witness: Carol signs up beside Alice and Bob *)

Section Witnesses.
#[local] Existing Instances RefCodec.codec RefCodec.codec_laws RefCodec.uuid_text RefCodec.uuid_text_laws.

Lemma sign_up_login_me_witness :
  users_reachable demo_hash demo_users /\ repo_find_by_id 3 demo_users = None /\
  repo_find_by_login "carol" demo_users = None /\ 0 < access_token_expires default_jwt_provider /\
  exists t1 r,
    register_view demo_hash 3 (Some (credentials "carol" "pw")) demo_users =
      (sign_up_answer 200 true "User registered successfully", t1) /\
    login_view default_jwt_provider demo_hash 1000 (Some (credentials "carol" "pw")) t1
      = mkResponse 200 (jwt_response_to_dict r) /\
    get_me_view 1200 (Some ("Bearer " ++ access_token r)) t1 =
      mkResponse 200 (JObj [("user_id", JStr (uuid_str 3)); ("login", JStr "carol")]).
Proof.
  assert (H2 : repo_find_by_id 3 demo_users = None) by reflexivity.
  assert (H3 : repo_find_by_login "carol" demo_users = None) by reflexivity.
  assert (H4 : 0 < access_token_expires default_jwt_provider) by (simpl; lia).
  refine (conj demo_users_reachable (conj H2 (conj H3 (conj H4 _)))).
  destruct (sign_up_login_me default_jwt_provider demo_hash 1000 demo_users 3 "carol" "pw"
              demo_users_reachable H2 H3 H4) as (t1 & r & Hreg & Hlog & Hme).
  exists t1, r. split_and!; [exact Hreg|exact Hlog|]. apply Hme. simpl. lia.
Defined.
End Witnesses.
