(* ===== verification/GameController.v ===== *)
(** * The HTTP layer of games: [GameController] and [GameDtoMapper]

    Models [src/src/web/route/game_controller.py] and
    [src/src/web/mapper/game_dto_mapper.py] over the game service of
    [Service.v] and [Leaderboard.v], the bearer check of [Auth.v] and
    the JSON values of [Controllers.v].  Every handler runs behind
    [require_auth].  Every error the game service raises is a
    [ValueError]: [join_game] and [make_move] answer it with 400, the
    other handlers with 500 through [except Exception].

    A submitted board is a JSON array of three arrays of three cells.
    Cells that are JSON integers are the integers of the model; a board
    with a cell of another kind (a string, a float, [null], ...) passes
    the controller's checks in Python and is then compared with [==];
    such boards are outside the model, and [make_move_view] returns
    [None] for them. *)

From Stdlib Require Import ZArith QArith String Ascii Lia.
From stdpp Require Import base list option decidable.
From S2P Require Import Prelude Board Game Persistence Service Leaderboard Users Auth Controllers.

Local Open Scope Z_scope.
Local Open Scope string_scope.

(** ** [GameDtoMapper] *)

Section Dto.
Context `{!UuidText}.

(** [str(x) if x else None] on a nullable UUID. *)
Definition opt_uuid_json (x : option uuid) : json :=
  match x with Some u => JStr (uuid_str u) | None => JNull end.

Definition board_json (b : board) : json := JArr (map (fun row => JArr (map JInt row)) b).

(** [to_game_info_dto] and the dictionary the handlers build from it. *)
Definition game_info_json (game : CurrentGame) : json :=
  JObj [("game_id", JStr (uuid_str (game_id game)));
        ("board", board_json (game_field game));
        ("game_type", JStr (GameType.value (game_type game)));
        ("game_state", JStr (GameState.value (game_state game)));
        ("player1_id", JStr (uuid_str (player1_id game)));
        ("player2_id", opt_uuid_json (player2_id game));
        ("player1_symbol", JInt (value (player1_symbol game)));
        ("player2_symbol", JInt (value (player2_symbol game)));
        ("current_player_id", opt_uuid_json (current_player_id game));
        ("winner_id", opt_uuid_json (winner_id game))].

(** [to_available_games_list] (lines 35-45). *)
Definition available_games_json (games : list CurrentGame) : json :=
  JArr (map (fun game =>
    JObj [("game_id", JStr (uuid_str (game_id game)));
          ("player1_id", JStr (uuid_str (player1_id game)));
          ("player2_id", opt_uuid_json (player2_id game));
          ("game_type", JStr (GameType.value (game_type game)))]) games).
End Dto.

(** ** [str(e)] of the service's [ValueError]s *)

(** The message of each [raise ValueError(...)]; [gid] is the id in
    ["Game with ID {game_id} not found"].  The text of the enum's own
    [ValueError] on a corrupt row is not modelled. *)
Definition error_message `{!UuidText} (gid : uuid) (e : GameError) : string :=
  match e with
  | GameNotFound => "Game with ID " ++ uuid_str gid ++ " not found"
  | NotAvailableForJoining => "Game is not available for joining"
  | OnlyPvpCanBeJoined => "Only PvP games can be joined"
  | CannotJoinOwnGame => "Cannot join your own game"
  | GameAlreadyOver => "Game is already over"
  | NotYourTurn => "Not your turn"
  | InvalidBoardFormat => "Invalid board format"
  | LimitTooSmall => "Limit must be greater than 0"
  | LimitTooLarge => "Limit must not exceed 100"
  | InvalidStoredValue => "invalid stored value"
  end.

(** [str.lower()] on the bytes of the string: only ASCII letters
    change.  No other character lowercases to ["p"], ["v"] or ["c"], so
    the test against ["pvp"] and ["pvc"] is Python's. *)
Definition ascii_lower (c : ascii) : ascii :=
  let n := nat_of_ascii c in
  if (65 <=? n)%nat && (n <=? 90)%nat then ascii_of_nat (n + 32) else c.

Fixpoint str_lower (s : string) : string :=
  match s with
  | EmptyString => EmptyString
  | String c s' => String (ascii_lower c) (str_lower s')
  end.

(** ** The submitted board *)

(** Lines 155-162: [isinstance(board, list) and len(board) == 3], and
    the same for each row. *)
Inductive BoardRead :=
  | BoardBad                  (* the 400 answer *)
  | BoardOutside              (* a 3x3 array with a cell that is no integer *)
  | BoardCells (b : board).

Definition json_row (j : json) : option (list json) :=
  match j with
  | JArr l => if (length l =? 3)%nat then Some l else None
  | _ => None
  end.

Definition json_cell (j : json) : option Z :=
  match j with JInt z => Some z | _ => None end.

Definition read_board (j : json) : BoardRead :=
  match j with
  | JArr rows =>
      if negb (length rows =? 3)%nat then BoardBad
      else match mapM json_row rows with
           | None => BoardBad
           | Some cells =>
               match mapM (mapM json_cell) cells with
               | Some b => BoardCells b
               | None => BoardOutside
               end
           end
  | _ => BoardBad
  end.

(** The quotation mark, for the message of line 63. *)
Definition dq : string := String (ascii_of_nat 34) EmptyString.

(** ** The handlers *)

Section Views.
Context {S : Type} `{!GameRepository S} `{!JwtCodec} `{!UuidText}.

(** [require_auth] around a handler that reads and writes the store. *)
Definition with_auth {A} (now : Z) (auth_header : option string) (s : A)
    (k : uuid -> Response * A) : Response * A :=
  match require_auth now auth_header with
  | Unauthorized e m => (unauthorized_response e m, s)
  | Authorized uid => k uid
  end.

(** [create_game] (lines 50-90); [new_id] and [created_at] are the
    [uuid4()] and [utcnow()] of the new game. *)
Definition create_game_view (now : Z) (auth_header : option string) (data : option json)
    (new_id : uuid) (created_at : Z) (s : S) : Response * S :=
  with_auth now auth_header s (fun player_id =>
    match read_body data ["game_type"] with
    | BodyMissing => (error_response 400 "game_type is required", s)
    | BodyFields [JStr game_type_str] =>
        let game_type_str := str_lower game_type_str in
        if negb (String.eqb game_type_str "pvp" || String.eqb game_type_str "pvc") then
          (error_response 400 ("game_type must be " ++ dq ++ "pvp" ++ dq ++ " or " ++ dq ++ "pvc" ++ dq), s)
        else
          let game_type := if String.eqb game_type_str "pvp" then GameType.PVP else GameType.PVC in
          match create_game new_id player_id game_type created_at s with
          | (inr game, s') => (mkResponse 201 (game_info_json game), s')
          | (inl _, s') => (internal_error, s')
          end
    | _ => (internal_error, s)
    end).

(** [get_available_games] (lines 92-103). *)
Definition available_games_view (now : Z) (auth_header : option string) (s : S) : Response * S :=
  with_auth now auth_header s (fun _ =>
    match get_available_games s with
    | (inr games, s') => (mkResponse 200 (JObj [("games", available_games_json games)]), s')
    | (inl _, s') => (internal_error, s')
    end).

(** [join_game] (lines 105-142). *)
Definition join_game_view (now : Z) (auth_header : option string) (game_id_text : string) (s : S)
    : Response * S :=
  with_auth now auth_header s (fun player_id =>
    match parse_uuid game_id_text with
    | None => (error_response 400 "Invalid game_id format", s)
    | Some gid =>
        match join_game gid player_id s with
        | (inr game, s') => (mkResponse 200 (game_info_json game), s')
        | (inl e, s') => (error_response 400 (error_message gid e), s')
        end
    end).

(** [make_move] (lines 144-194); [None] for a board outside the model. *)
Definition make_move_view (now : Z) (auth_header : option string) (data : option json)
    (game_id_text : string) (s : S) : option (Response * S) :=
  match require_auth now auth_header with
  | Unauthorized e m => Some (unauthorized_response e m, s)
  | Authorized player_id =>
      match read_body data ["board"] with
      | BodyMissing => Some (error_response 400 "board is required", s)
      | BodyFields [board_json] =>
          match read_board board_json with
          | BoardBad => Some (error_response 400 "board must be a 3x3 array", s)
          | BoardOutside => None
          | BoardCells b =>
              match parse_uuid game_id_text with
              | None => Some (error_response 400 "Invalid game_id format", s)
              | Some gid =>
                  match make_move gid player_id b s with
                  | (inr game, s') => Some (mkResponse 200 (game_info_json game), s')
                  | (inl e, s') => Some (error_response 400 (error_message gid e), s')
                  end
              end
          end
      | _ => Some (internal_error, s)
      end
  end.

(** [get_game] (lines 196-232): no [ValueError] clause, so a corrupt row
    answers 500. *)
Definition get_game_view (now : Z) (auth_header : option string) (game_id_text : string) (s : S)
    : Response * S :=
  with_auth now auth_header s (fun _ =>
    match parse_uuid game_id_text with
    | None => (error_response 400 "Invalid game_id format", s)
    | Some gid =>
        match get_game gid s with
        | (inr None, s') => (error_response 404 "Game not found", s')
        | (inr (Some game), s') => (mkResponse 200 (game_info_json game), s')
        | (inl _, s') => (internal_error, s')
        end
    end).

(** [get_game_history] (lines 234-247) with [to_game_history_list];
    [isoformat] of the creation time is a parameter. *)
Definition game_history_view (isoformat : Z -> string) (now : Z) (auth_header : option string)
    (s : S) : Response * S :=
  with_auth now auth_header s (fun user_id =>
    match get_completed_games_by_user user_id s with
    | (inr games, s') =>
        (mkResponse 200 (JObj [("games", JArr (map (fun game =>
           match game_info_json game with
           | JObj fields => JObj (app fields [("created_at", JStr (isoformat (created_at game)))])
           | j => j
           end) games))]), s')
    | (inl _, s') => (internal_error, s')
    end).

(** [get_leaderboard] (lines 249-269): [request.args.get("limit",
    default=10, type=int)] with [int()] as [parse_int]; the user service
    looks the login up in the users table; [round(x, 3)] is [round3]. *)
Definition leaderboard_view (parse_int : string -> option Z) (round3 : Q -> Q)
    (now : Z) (auth_header : option string) (limit_arg : option string)
    (users : user_table) (s : S) : Response * S :=
  with_auth now auth_header s (fun _ =>
    let limit := match limit_arg with Some a => default 10 (parse_int a) | None => 10 end in
    if Z.ltb limit 1 then (error_response 400 "limit must be greater than 0", s)
    else if Z.ltb 100 limit then (error_response 400 "limit must not exceed 100", s)
    else
      match get_leaderboard (fun u => login <$> find_by_id u users) uuid_str limit s with
      | (inr leaders, s') =>
          (mkResponse 200 (JObj [("leaderboard", JArr (map (fun l =>
             JObj [("user_id", JStr (uuid_str (ls_user_id l))); ("login", JStr (ls_login l));
                   ("win_ratio", JNum (round3 (ls_win_ratio l)))]) leaders))]), s')
      | (inl e, s') => (error_response 400 (error_message 0 e), s')
      end).
End Views.

(** ** The move endpoint refines the service *)

Lemma read_board_json b :
  length b = 3%nat -> Forall (fun row => length row = 3%nat) b -> read_board (board_json b) = BoardCells b.
Proof.
  intros Hlen Hrows. unfold read_board, board_json. rewrite length_map, Hlen. simpl.
  assert (Hr : mapM json_row (map (fun row => JArr (map JInt row)) b) =
               Some (map (fun row => map JInt row) b)).
  { clear Hlen. induction Hrows as [|row b' Hrow _ IH]; [done|]. simpl.
    rewrite length_map, Hrow. simpl. by rewrite IH. }
  rewrite Hr. clear Hr Hlen Hrows.
  assert (Hc : mapM (mapM json_cell) (map (fun row => map JInt row) b) = Some b).
  { induction b as [|row b' IH]; [done|]. simpl.
    assert (mapM json_cell (map JInt row) = Some row) as ->.
    { induction row as [|z row IHr]; [done|]. simpl. by rewrite IHr. }
    simpl. by rewrite IH. }
  by rewrite Hc.
Qed.

Lemma read_body_board j : read_body (Some (JObj [("board", j)])) ["board"] = BodyFields [j].
Proof. reflexivity. Qed.

Section ViewFacts.
Context {S : Type} `{!GameRepository S} `{!JwtCodec} `{!UuidText}.

(** C28: the move endpoint answers exactly as the service does.  For a
    request that passes the bearer check, with a 3x3 array of integers
    as ["board"] and a well-formed game id, the answer is 200 with the
    game [make_move] returns, or 400 with the message of the
    [ValueError] it raises, and the store is the one the service leaves.
    In particular an unknown game id answers 400, not the 404 of the
    spec's [NotFound]. *)
Theorem make_move_view_refines now hdr pid gid_text gid b s :
  require_auth now hdr = Authorized pid -> parse_uuid gid_text = Some gid ->
  length b = 3%nat -> Forall (fun row => length row = 3%nat) b ->
  make_move_view now hdr (Some (JObj [("board", board_json b)])) gid_text s =
  Some (match make_move gid pid b s with
        | (inr g, s') => (mkResponse 200 (game_info_json g), s')
        | (inl e, s') => (error_response 400 (error_message gid e), s')
        end) /\
  (repo_get_game s gid = None ->
   make_move_view now hdr (Some (JObj [("board", board_json b)])) gid_text s =
   Some (error_response 400 ("Game with ID " ++ uuid_str gid ++ " not found"), s)).
Proof.
  intros Hauth Hgid Hlen Hrows.
  assert (Hview : make_move_view now hdr (Some (JObj [("board", board_json b)])) gid_text s =
    Some (match make_move gid pid b s with
          | (inr g, s') => (mkResponse 200 (game_info_json g), s')
          | (inl e, s') => (error_response 400 (error_message gid e), s')
          end)).
  { unfold make_move_view. rewrite Hauth, read_body_board. cbv beta iota.
    rewrite read_board_json by done.
    rewrite Hgid. by destruct (make_move gid pid b s) as [[e|g] s']. }
  split; [exact Hview|]. intros Hnone. rewrite Hview.
  unfold make_move, load, get_entity, mbind, stE_bind. by rewrite Hnone.
Qed.
End ViewFacts.

Lemma read_body_game_type j :
  read_body (Some (JObj [("game_type", j)])) ["game_type"] = BodyFields [j].
Proof. reflexivity. Qed.

Section CreateGet.
Context {S : Type} `{!GameRepository S} `{!GameRepositoryLaws S} `{!JwtCodec} `{!UuidText}.

(** C29: the create and read endpoints round-trip.  [POST /game/create]
    with a game type that lowercases to ["pvp"] or ["pvc"] answers 201,
    and [GET /game/<id>] for the new id then answers 200 with the very
    body the creation returned. *)
Theorem create_then_get_view now hdr pid ty_str new_id t0 s gid_text :
  require_auth now hdr = Authorized pid ->
  (str_lower ty_str = "pvp" \/ str_lower ty_str = "pvc") ->
  repo_get_game s new_id = None -> parse_uuid gid_text = Some new_id ->
  exists r s1,
    create_game_view now hdr (Some (JObj [("game_type", JStr ty_str)])) new_id t0 s = (r, s1) /\
    status r = 201 /\ get_game_view now hdr gid_text s1 = (mkResponse 200 (body r), s1).
Proof.
  intros Hauth Hty Hnone Hgid.
  assert (Hcase : exists ty, create_game_view now hdr (Some (JObj [("game_type", JStr ty_str)]))
                    new_id t0 s =
                  match create_game new_id pid ty t0 s with
                  | (inr game, s') => (mkResponse 201 (game_info_json game), s')
                  | (inl _, s') => (internal_error, s')
                  end).
  { unfold create_game_view, with_auth. rewrite Hauth, read_body_game_type. cbv beta iota.
    destruct Hty as [-> | ->]; eexists; reflexivity. }
  destruct Hcase as [ty ->].
  destruct (create_game_stored s new_id pid ty t0 Hnone) as (s1 & Hc & Hg).
  rewrite Hc. eexists _, s1. split_and!; [reflexivity|reflexivity|].
  unfold get_game_view, with_auth. rewrite Hauth, Hgid, Hg. reflexivity.
Qed.
End CreateGet.

(** ** Witnesses: Alice (id 1) calls the game endpoints *)

Section Witnesses.
#[local] Existing Instances RefCodec.codec RefCodec.codec_laws RefCodec.uuid_text RefCodec.uuid_text_laws.

Definition alice_header : option string :=
  Some ("Bearer " ++ generate_access_token default_jwt_provider 500 alice_user).

Lemma make_move_view_refines_witness :
  require_auth 1000 alice_header = Authorized 1%N /\ parse_uuid (uuid_str 2%N) = Some 2%N /\
  repo_get_game one_game_store 2%N = None /\
  make_move_view 1000 alice_header (Some (JObj [("board", board_json center_move)])) (uuid_str 2%N)
    one_game_store =
  Some (error_response 400 ("Game with ID " ++ uuid_str 2%N ++ " not found"), one_game_store).
Proof.
  assert (H1 : require_auth 1000 alice_header = Authorized 1%N) by (vm_compute; reflexivity).
  assert (H2 : parse_uuid (uuid_str 2%N) = Some 2%N) by reflexivity.
  assert (H3 : repo_get_game one_game_store 2%N = None) by reflexivity.
  split_and!; [exact H1|exact H2|exact H3|].
  refine (proj2 (make_move_view_refines 1000 alice_header 1 (uuid_str 2%N) 2 center_move
                   one_game_store H1 H2 _ _) H3); [reflexivity|repeat constructor].
Defined.

Lemma create_then_get_view_witness :
  require_auth 1000 alice_header = Authorized 1%N /\ str_lower "PvP" = "pvp" /\
  repo_get_game one_game_store 5%N = None /\ parse_uuid (uuid_str 5%N) = Some 5%N /\
  exists r s1,
    create_game_view 1000 alice_header (Some (JObj [("game_type", JStr "PvP")])) 5 42 one_game_store
      = (r, s1) /\
    status r = 201 /\ get_game_view 1000 alice_header (uuid_str 5%N) s1 = (mkResponse 200 (body r), s1).
Proof.
  assert (H1 : require_auth 1000 alice_header = Authorized 1%N) by (vm_compute; reflexivity).
  assert (H2 : str_lower "PvP" = "pvp") by reflexivity.
  assert (H3 : repo_get_game one_game_store 5%N = None) by reflexivity.
  assert (H4 : parse_uuid (uuid_str 5%N) = Some 5%N) by reflexivity.
  split_and!; [exact H1|exact H2|exact H3|exact H4|].
  exact (create_then_get_view 1000 alice_header 1 "PvP" 5 42 one_game_store (uuid_str 5%N)
           H1 (or_introl H2) H3 H4).
Defined.
End Witnesses.
